(** * CS Lab Instructor front end: a shallow embedding of the page handlers

    The React pages of the repository are event handlers over component
    state.  Every handler is embedded as a function on an explicit state
    record; an [await] splits a handler into the part that runs before the
    request is issued and the continuation that runs when the reply (or the
    exception) comes back, with the variables the closure captured passed
    along.

    A string is held as the bytes of its UTF-8 encoding: on well-formed
    strings, equality, concatenation, [startsWith] and [includes] on these
    bytes are those of the UTF-16 code units the engine holds.  White space
    and line terminators are the ones of ECMAScript, recognised by their
    encodings.  The case conversions of [String.prototype] follow the
    Unicode tables of the engine, which are no part of the repository: the
    compare and the calendar page, which convert what the user types, take
    them as given; the score page, whose routes are tickers, is given with
    the conversions of the ASCII letters. *)

From Stdlib Require Import NArith Ascii String.
From stdpp Require Import base list strings.

Open Scope string_scope.

(** ** JavaScript string primitives used by the pages *)
Module JS.

Definition inRange (lo hi n : N) : bool := ((lo <=? n) && (n <=? hi))%N.

(** What [String.prototype.trim] removes, by the bytes of the encoding:
    TAB, LF, VT, FF, CR and SPACE take one byte; *)
Definition white1 (a : N) : bool := inRange 9 13 a || (a =? 32)%N.

(** U+00A0 takes two (C2 A0); *)
Definition white2 (a b : N) : bool := ((a =? 194) && (b =? 160))%N.

(** U+1680 (E1 9A 80), U+2000 to U+200A (E2 80 80 to E2 80 8A), U+2028 and
    U+2029 (E2 80 A8, E2 80 A9), U+202F (E2 80 AF), U+205F (E2 81 9F),
    U+3000 (E3 80 80) and U+FEFF (EF BB BF) take three. *)
Definition white3 (a b c : N) : bool :=
  ((a =? 225) && (b =? 154) && (c =? 128))%N
  || ((a =? 226) && (b =? 128))%N
     && (inRange 128 138 c || (c =? 168) || (c =? 169) || (c =? 175))%N
  || ((a =? 226) && (b =? 129) && (c =? 159))%N
  || ((a =? 227) && (b =? 128) && (c =? 128))%N
  || ((a =? 239) && (b =? 187) && (c =? 191))%N.

(** The number of bytes of the white space character [s] starts with, 0 when
    it starts with none. *)
Definition whiteLength (s : string) : nat :=
  match s with
  | EmptyString => 0
  | String a r =>
      if white1 (N_of_ascii a) then 1
      else
        match r with
        | EmptyString => 0
        | String b r' =>
            if white2 (N_of_ascii a) (N_of_ascii b) then 2
            else
              match r' with
              | EmptyString => 0
              | String c _ =>
                  if white3 (N_of_ascii a) (N_of_ascii b) (N_of_ascii c)
                  then 3 else 0
              end
        end
  end.

(** [trimStartFrom skip s] first passes over the [skip] bytes that are left
    of a white space character, then over the white space [s] goes on
    with. *)
Fixpoint trimStartFrom (skip : nat) (s : string) : string :=
  match s with
  | EmptyString => EmptyString
  | String _ r =>
      match skip with
      | S k => trimStartFrom k r
      | O =>
          match whiteLength s with
          | O => s
          | S k => trimStartFrom k r
          end
      end
  end.

Definition trimStart (s : string) : string := trimStartFrom 0 s.

(** [onlyWhite skip s]: after the first [skip] bytes, [s] is white space up
    to its end. *)
Fixpoint onlyWhite (skip : nat) (s : string) : bool :=
  match s with
  | EmptyString => true
  | String _ r =>
      match skip with
      | S k => onlyWhite k r
      | O =>
          match whiteLength s with
          | O => false
          | S k => onlyWhite k r
          end
      end
  end.

(** [trimEnd] cuts the string where nothing but white space follows. *)
Fixpoint trimEnd (s : string) : string :=
  match s with
  | EmptyString => EmptyString
  | String c r => if onlyWhite 0 s then EmptyString else String c (trimEnd r)
  end.

Definition trim (s : string) : string := trimEnd (trimStart s).

(** Truthiness of a string value: only the empty string is falsy. *)
Definition truthy (s : string) : bool :=
  match s with EmptyString => false | String _ _ => true end.

(** Truthiness of a [string | null] value. *)
Definition truthyOpt (o : option string) : bool :=
  match o with None => false | Some s => truthy s end.

(** The case conversions on the letters of ASCII, which is what
    [toLowerCase] and [toUpperCase] do to a string of ASCII characters. *)
Definition lowerChar (c : ascii) : ascii :=
  let n := N_of_ascii c in
  if ((65 <=? n) && (n <=? 90))%N then ascii_of_N (n + 32) else c.

Definition upperChar (c : ascii) : ascii :=
  let n := N_of_ascii c in
  if ((97 <=? n) && (n <=? 122))%N then ascii_of_N (n - 32) else c.

Fixpoint mapChars (f : ascii -> ascii) (s : string) : string :=
  match s with
  | EmptyString => EmptyString
  | String c r => String (f c) (mapChars f r)
  end.

Definition toLowerCase : string -> string := mapChars lowerChar.
Definition toUpperCase : string -> string := mapChars upperChar.

(** [startsWith s p]: [p] is a prefix of [s]. *)
Fixpoint startsWith (s p : string) {struct p} : bool :=
  match p, s with
  | EmptyString, _ => true
  | String _ _, EmptyString => false
  | String b p', String a s' => if Ascii.eqb a b then startsWith s' p' else false
  end.

(** [String.prototype.includes]: the needle occurs at some position. *)
Fixpoint includes (s needle : string) : bool :=
  startsWith s needle ||
  match s with
  | EmptyString => false
  | String _ r => includes r needle
  end.

(** Digits of [Number.prototype.toString(radix)] on a natural number. *)
Definition digitChar (d : N) : ascii :=
  if (d <? 10)%N then ascii_of_N (48 + d) else ascii_of_N (87 + d).

Fixpoint digitsFrom (fuel : nat) (radix n : N) (acc : string) : string :=
  let acc' := String (digitChar (n mod radix)) acc in
  match fuel with
  | O => acc'
  | S f => if (n / radix =? 0)%N then acc' else digitsFrom f radix (n / radix) acc'
  end.

Definition toStringRadix (radix n : N) : string :=
  digitsFrom (N.to_nat (N.log2 n)) radix n EmptyString.

Definition toString (n : N) : string := toStringRadix 10 n.

(** *** Blank strings and search, as properties *)

(** Two ASCII characters that differ at most by case. *)
Definition sameLetter (a b : ascii) : Prop := lowerChar a = lowerChar b.

(** Two strings of the same length that differ at most by the case of their
    ASCII letters. *)
Fixpoint sameText (s t : string) : Prop :=
  match s, t with
  | EmptyString, EmptyString => True
  | String a s', String b t' => sameLetter a b /\ sameText s' t'
  | _, _ => False
  end.

(** [needle] occurs in [text]: some stretch of [text] is [needle]. *)
Definition occurs (needle text : string) : Prop :=
  exists before after, text = before +:+ needle +:+ after.

(** The UTF-8 encoding of a code point. *)
Definition utf8 (cp : N) : string :=
  let byte (n : N) (s : string) := String (ascii_of_N n) s in
  if (cp <? 128)%N then byte cp ""
  else if (cp <? 2048)%N then
    byte (192 + cp / 64)%N (byte (128 + cp mod 64)%N "")
  else if (cp <? 65536)%N then
    byte (224 + cp / 4096)%N
      (byte (128 + (cp / 64) mod 64)%N (byte (128 + cp mod 64)%N ""))
  else
    byte (240 + cp / 262144)%N
      (byte (128 + (cp / 4096) mod 64)%N
         (byte (128 + (cp / 64) mod 64)%N (byte (128 + cp mod 64)%N ""))).

Fixpoint encode (cps : list N) : string :=
  match cps with
  | nil => EmptyString
  | cp :: rest => utf8 cp +:+ encode rest
  end.

(** The code points of WhiteSpace and LineTerminator in ECMAScript: TAB, LF,
    VT, FF, CR, SPACE, NO-BREAK SPACE, OGHAM SPACE MARK, EN QUAD to HAIR
    SPACE, LINE SEPARATOR, PARAGRAPH SEPARATOR, NARROW NO-BREAK SPACE,
    MEDIUM MATHEMATICAL SPACE, IDEOGRAPHIC SPACE and the byte order mark. *)
Definition whiteSpace : list N :=
  (9 :: 10 :: 11 :: 12 :: 13 :: 32 :: 160 :: 5760
   :: 8192 :: 8193 :: 8194 :: 8195 :: 8196 :: 8197 :: 8198 :: 8199 :: 8200
   :: 8201 :: 8202 :: 8232 :: 8233 :: 8239 :: 8287 :: 12288 :: 65279 :: nil)%N.

(** A string is blank when it is a sequence of white space characters. *)
Definition blank (s : string) : Prop :=
  exists cps, Forall (fun cp => cp ∈ whiteSpace) cps /\ s = encode cps.

End JS.

Open Scope list_scope.

(** ** Awaited calls *)
Module Async.

(** An awaited call either throws or yields its value; for a [fetch(...)]
    followed by [response.json()] the value is the parsed body. *)
Inductive Outcome (A : Type) :=
| Threw (exn : string)
| Replied (data : A).
Arguments Threw {A} exn.
Arguments Replied {A} data.

(** A handler that reached an [await] joins the handlers in flight. *)
Definition suspend {A : Type} (p : option A) (l : list A) : list A :=
  match p with
  | Some x => l ++ [x]
  | None => l
  end.

End Async.

(** ** The chat page, [src/app/page.tsx] *)
Module Chat.
Import JS Async.

Inductive Role := user | assistant.

(** One entry of [intermediateSteps], as the page renders it. *)
Record Step := {
  action : string;
  action_input : string;
  observation : option string }.

Record Message := {
  id : string;
  content : string;
  role : Role;
  timestamp : N;
  intermediateSteps : option (list Step) }.

(** A browser [File]; [fileObj] stands for the identity of the object, which
    is what [f.file === file] compares. *)
Record File := { fileObj : nat; fileName : string }.

Inductive Status := uploading | completed | error.

Record FileUpload := {
  file : File;
  status : Status;
  message : option string }.

(** The [useState] cells of [CSInstructorPage]. *)
Record State := {
  messages : list Message;
  inputMessage : string;
  isLoading : bool;
  sessionId : option string;
  files : list FileUpload;
  showAdvanced : bool }.

Definition setMessages (f : list Message -> list Message) (st : State) : State :=
  {| messages := f (messages st); inputMessage := inputMessage st;
     isLoading := isLoading st; sessionId := sessionId st;
     files := files st; showAdvanced := showAdvanced st |}.

Definition setInputMessage (s : string) (st : State) : State :=
  {| messages := messages st; inputMessage := s;
     isLoading := isLoading st; sessionId := sessionId st;
     files := files st; showAdvanced := showAdvanced st |}.

Definition setIsLoading (b : bool) (st : State) : State :=
  {| messages := messages st; inputMessage := inputMessage st;
     isLoading := b; sessionId := sessionId st;
     files := files st; showAdvanced := showAdvanced st |}.

Definition setSessionId (o : option string) (st : State) : State :=
  {| messages := messages st; inputMessage := inputMessage st;
     isLoading := isLoading st; sessionId := o;
     files := files st; showAdvanced := showAdvanced st |}.

Definition setFiles (f : list FileUpload -> list FileUpload) (st : State) : State :=
  {| messages := messages st; inputMessage := inputMessage st;
     isLoading := isLoading st; sessionId := sessionId st;
     files := f (files st); showAdvanced := showAdvanced st |}.

Definition setShowAdvanced (b : bool) (st : State) : State :=
  {| messages := messages st; inputMessage := inputMessage st;
     isLoading := isLoading st; sessionId := sessionId st;
     files := files st; showAdvanced := b |}.

(** The values [useState] starts from. *)
Definition initial : State :=
  {| messages := []; inputMessage := ""; isLoading := false;
     sessionId := None; files := []; showAdvanced := false |}.

(** *** What a handler does to the outside world *)

Inductive ClearType := conversation | semantic.

Inductive Request :=
| PostQuery (q_message : string) (q_session_id : option string)
| PostUpload (u_file : File) (u_session_id : option string)
| PostClear (c_session_id : string) (c_type : ClearType).

Inductive Effect :=
| Fetch (r : Request)
| ConsoleError (label detail : string)
| Alert (text : string).

(** *** What comes back *)

Record QueryData := {
  success : bool;
  response : string;
  session_id : option string;
  intermediate_steps : option (list Step);
  error_detail : option string }.

(** Body of the replies to [/upload] and [/memory/clear]. *)
Record AckData := { ack_success : bool; ack_message : string }.

(** A handler suspended at an [await], with what its closure holds. *)
Inductive Pending :=
| PQuery (sent : option string)
| PUpload (f : File) (rest : list File) (sid : option string)
| PClear (ty : ClearType).

(** *** Mounting: the first [useEffect] *)

Definition welcomeText : string :=
  "Hello! I'm your AI-powered CS lab instructor. I can help you with:

🐍 **Python Programming** - Execute code, debug, and explain concepts
💻 **Code Analysis** - Analyze and explain code in multiple languages  
🔍 **Research** - Search for programming resources and documentation
📚 **Knowledge Base** - Access uploaded lab materials and documents

Ask me questions, share code to analyze, or upload lab manuals and PDFs. What would you like to learn today?".

Definition welcomeMessage (now : N) : Message :=
  {| id := "welcome"; content := welcomeText; role := assistant;
     timestamp := now; intermediateSteps := None |}.

(** [rnd] is [Math.random().toString(36).substring(2)]. *)
Definition generateSessionId (rnd : string) (now : N) (st : State) : State :=
  setSessionId (Some (rnd +:+ toStringRadix 36 now)) st.

Definition mount (rnd : string) (now : N) (st : State) : State :=
  generateSessionId rnd now (setMessages (fun _ => [welcomeMessage now]) st).

(** *** sendMessage *)

Definition userMessage (now : N) (text : string) : Message :=
  {| id := toString now; content := text; role := user;
     timestamp := now; intermediateSteps := None |}.

Definition assistantMessage (now : N) (d : QueryData) : Message :=
  {| id := toString now +:+ "_ai"; content := response d; role := assistant;
     timestamp := now; intermediateSteps := intermediate_steps d |}.

Definition errorText : string :=
  "Sorry, I encountered an error. Please try again.".

Definition errorMessage (now : N) : Message :=
  {| id := toString now +:+ "_error"; content := errorText; role := assistant;
     timestamp := now; intermediateSteps := None |}.

(** The guard on the first line of [sendMessage]. *)
Definition sendBlocked (st : State) : bool :=
  negb (truthy (trim (inputMessage st))) || isLoading st.

(** [sendMessage] up to the [await fetch]. *)
Definition sendMessage_begin (now : N) (st : State)
  : State * list Effect * option Pending :=
  if sendBlocked st then (st, [], None)
  else
    let st1 := setMessages (fun prev => prev ++ [userMessage now (inputMessage st)]) st in
    let st2 := setInputMessage "" st1 in
    let st3 := setIsLoading true st2 in
    (st3, [Fetch (PostQuery (inputMessage st) (sessionId st))],
     Some (PQuery (sessionId st))).

(** The [catch] block of [sendMessage]. *)
Definition sendMessage_catch (now : N) (detail : string) (st : State)
  : State * list Effect :=
  (setMessages (fun prev => prev ++ [errorMessage now]) st,
   [ConsoleError "Error sending message:" detail]).

(** [data.error || 'Failed to get response'] *)
Definition thrownText (d : QueryData) : string :=
  match error_detail d with
  | Some e => if truthy e then e else "Failed to get response"
  | None => "Failed to get response"
  end.

(** [sendMessage] from the reply on; [sent] is the [sessionId] the closure
    captured, the one that was put in the request. *)
Definition sendMessage_resume (sent : option string) (now : N)
    (o : Outcome QueryData) (st : State) : State * list Effect :=
  let '(st1, eff) :=
    match o with
    | Replied d =>
        if success d then
          let st' := setMessages (fun prev => prev ++ [assistantMessage now d]) st in
          if truthyOpt (session_id d) && bool_decide (session_id d <> sent)
          then (setSessionId (session_id d) st', [])
          else (st', [])
        else sendMessage_catch now (thrownText d) st
    | Threw e => sendMessage_catch now e st
    end in
  (setIsLoading false st1, eff).

(** *** handleFileUpload *)

Definition sameFile (a b : File) : bool := Nat.eqb (fileObj a) (fileObj b).

Definition markFile (f : File) (s : Status) (m : string) (fu : FileUpload)
  : FileUpload :=
  if sameFile (file fu) f
  then {| file := file fu; status := s; message := Some m |}
  else fu.

Definition newline : string := String (ascii_of_N 10) EmptyString.

Definition uploadMessage (now : N) (f : File) (d : AckData) : Message :=
  {| id := toString now +:+ "_upload";
     content := "📄 Uploaded and processed: **" +:+ fileName f +:+ "**"
                +:+ newline +:+ ack_message d;
     role := assistant; timestamp := now; intermediateSteps := None |}.

(** One turn of the [for (const file of selectedFiles)] loop, up to its
    [await fetch]; [sid] is the captured [sessionId]. *)
Definition uploadNext (sid : option string) (fs : list File) (st : State)
  : State * list Effect * option Pending :=
  match fs with
  | [] => (st, [], None)
  | f :: rest =>
      (setFiles (fun prev => prev ++ [{| file := f; status := uploading; message := None |}]) st,
       [Fetch (PostUpload f (if truthyOpt sid then sid else None))],
       Some (PUpload f rest sid))
  end.

Definition handleFileUpload_begin (selectedFiles : list File) (st : State)
  : State * list Effect * option Pending :=
  uploadNext (sessionId st) selectedFiles st.

(** The rest of the loop body for [f], then the next turn of the loop. *)
Definition handleFileUpload_resume (f : File) (rest : list File)
    (sid : option string) (now : N) (o : Outcome AckData) (st : State)
  : State * list Effect * option Pending :=
  let st1 :=
    match o with
    | Replied d =>
        let st' := setFiles (map (markFile f (if ack_success d then completed else error)
                                           (ack_message d))) st in
        if ack_success d
        then setMessages (fun prev => prev ++ [uploadMessage now f d]) st'
        else st'
    | Threw _ => setFiles (map (markFile f error "Upload failed")) st
    end in
  uploadNext sid rest st1.

(** *** clearMemory *)

Definition clearMemory_begin (ty : ClearType) (st : State)
  : State * list Effect * option Pending :=
  match sessionId st with
  | Some sid =>
      if truthy sid
      then (st, [Fetch (PostClear sid ty)], Some (PClear ty))
      else (st, [], None)
  | None => (st, [], None)
  end.

Definition clearMemory_resume (ty : ClearType) (o : Outcome AckData) (st : State)
  : State * list Effect :=
  match o with
  | Replied d =>
      if ack_success d then
        (match ty with
         | conversation => setMessages (fun _ => []) st
         | semantic => st
         end, [Alert (ack_message d)])
      else (st, [])
  | Threw e => (st, [ConsoleError "Error clearing memory:" e])
  end.

(** *** What a reply adds to the transcript *)

(** The turn a reply adds: the answer on success, the apology otherwise. *)
Definition replyTurn (now : N) (o : Outcome QueryData) : Message :=
  match o with
  | Replied d => if success d then assistantMessage now d else errorMessage now
  | Threw _ => errorMessage now
  end.

(** The turn the reply to an upload adds, if any. *)
Definition uploadTurn (now : N) (f : File) (o : Outcome AckData) : list Message :=
  match o with
  | Replied d => if ack_success d then [uploadMessage now f d] else []
  | Threw _ => []
  end.

(** Whether a reply to [/memory/clear] reports success. *)
Definition acknowledged (o : Outcome AckData) : bool :=
  match o with
  | Replied d => ack_success d
  | Threw _ => false
  end.

(** *** The page as an event-driven machine

    Between two events the page is at rest; an event is a user action or the
    arrival of the reply to a request in flight.  Replies may arrive in any
    order: [k] picks the suspended handler that is resumed. *)

Record World := {
  ui : State;
  inflight : list Pending;
  trace : list Effect }.

Inductive Event :=
| Typed (text : string)
| SendClicked (now : N)
| QueryReturned (k : nat) (now : N) (o : Outcome QueryData)
| FilesChosen (selectedFiles : list File)
| UploadReturned (k : nat) (now : N) (o : Outcome AckData)
| ClearClicked (ty : ClearType)
| ClearReturned (k : nat) (o : Outcome AckData)
| AdvancedToggled.

(** A handler starts: its effects are recorded and its continuation, if it
    reached an [await], joins the handlers in flight. *)
Definition start (r : State * list Effect * option Pending) (w : World) : World :=
  let '(st, eff, p) := r in
  {| ui := st; inflight := suspend p (inflight w); trace := trace w ++ eff |}.

(** The [k]-th handler in flight is resumed and runs to its next [await] or
    to its end. *)
Definition finish (k : nat) (r : State * list Effect * option Pending) (w : World)
  : World :=
  let '(st, eff, p) := r in
  {| ui := st; inflight := suspend p (delete k (inflight w)); trace := trace w ++ eff |}.

Definition step (e : Event) (w : World) : World :=
  match e with
  | Typed text =>
      {| ui := setInputMessage text (ui w); inflight := inflight w; trace := trace w |}
  | SendClicked now => start (sendMessage_begin now (ui w)) w
  | QueryReturned k now o =>
      match inflight w !! k with
      | Some (PQuery sent) =>
          let '(st, eff) := sendMessage_resume sent now o (ui w) in
          finish k (st, eff, None) w
      | _ => w
      end
  | FilesChosen fs => start (handleFileUpload_begin fs (ui w)) w
  | UploadReturned k now o =>
      match inflight w !! k with
      | Some (PUpload f rest sid) =>
          finish k (handleFileUpload_resume f rest sid now o (ui w)) w
      | _ => w
      end
  | ClearClicked ty => start (clearMemory_begin ty (ui w)) w
  | ClearReturned k o =>
      match inflight w !! k with
      | Some (PClear ty) =>
          let '(st, eff) := clearMemory_resume ty o (ui w) in
          finish k (st, eff, None) w
      | _ => w
      end
  | AdvancedToggled =>
      {| ui := setShowAdvanced (negb (showAdvanced (ui w))) (ui w);
         inflight := inflight w; trace := trace w |}
  end.

Fixpoint run (evs : list Event) (w : World) : World :=
  match evs with
  | [] => w
  | e :: rest => run rest (step e w)
  end.

(** The page once mounted, nothing in flight. *)
Definition boot (rnd : string) (now : N) : World :=
  {| ui := mount rnd now initial; inflight := []; trace := [] |}.

Definition isQuery (p : Pending) : bool :=
  match p with PQuery _ => true | _ => false end.

(** Number of [/query] requests awaiting their reply. *)
Definition queriesInFlight (w : World) : nat :=
  length (List.filter isQuery (inflight w)).

Definition isUserTurn (m : Message) : bool :=
  match role m with user => true | assistant => false end.

Definition isQueryFetch (e : Effect) : bool :=
  match e with Fetch (PostQuery _ _) => true | _ => false end.

(** The reply that completes the query in flight at position [k]. *)
Definition completesQuery (e : Event) (w : World) : bool :=
  match e with
  | QueryReturned k _ _ =>
      match inflight w !! k with Some (PQuery _) => true | _ => false end
  | _ => false
  end.

(** The turns an event appends to the transcript. *)
Definition turnsAdded (e : Event) (w : World) : list Message :=
  match e with
  | SendClicked now =>
      if sendBlocked (ui w) then [] else [userMessage now (inputMessage (ui w))]
  | QueryReturned k now o =>
      match inflight w !! k with Some (PQuery _) => [replyTurn now o] | _ => [] end
  | UploadReturned k now o =>
      match inflight w !! k with Some (PUpload f _ _) => uploadTurn now f o | _ => [] end
  | _ => []
  end.

(** The reply by which a clear of the conversation takes effect. *)
Definition clearsConversation (e : Event) (w : World) : bool :=
  match e with
  | ClearReturned k (Replied d) =>
      match inflight w !! k with
      | Some (PClear conversation) => ack_success d
      | _ => false
      end
  | _ => false
  end.

(** No clear of the conversation takes effect along the run. *)
Fixpoint keepsConversation (evs : list Event) (w : World) : Prop :=
  match evs with
  | [] => True
  | e :: rest => clearsConversation e w = false /\ keepsConversation rest (step e w)
  end.

(** What holds of every world the page reaches: a query is in flight
    exactly while the loading flag is up, the session identifier is a
    non-empty string, and the query in flight was sent with it. *)
Record consistent (w : World) : Prop := {
  one_query : queriesInFlight w = if isLoading (ui w) then 1 else 0;
  has_session : truthyOpt (sessionId (ui w)) = true;
  sent_current : forall k sent,
    inflight w !! k = Some (PQuery sent) -> sent = sessionId (ui w) }.

(** Every [handleFileUpload] in flight holds an identifier. *)
Definition uploadsHoldSession (w : World) : Prop :=
  forall k f rest sid,
    inflight w !! k = Some (PUpload f rest sid) -> truthyOpt sid = true.

(** A query fails when the round trip throws or the body says so. *)
Definition queryFailed (o : Outcome QueryData) : Prop :=
  match o with
  | Threw _ => True
  | Replied d => success d = false
  end.

(** The text of the exception that reaches the [catch] block. *)
Definition failureDetail (o : Outcome QueryData) : string :=
  match o with
  | Threw e => e
  | Replied d => thrownText d
  end.

(** The events that run [sendMessage] or [handleFileUpload], or set the
    input they read. *)
Definition bySendOrUpload (e : Event) : bool :=
  match e with
  | Typed _ | SendClicked _ | QueryReturned _ _ _
  | FilesChosen _ | UploadReturned _ _ _ => true
  | _ => false
  end.

(** One exchange: a message is typed and sent, and the request fails. *)
Definition exchange : list Event :=
  [Typed "hi"; SendClicked 1; QueryReturned 0 2 (Threw "Failed to fetch")].

Fixpoint exchanges (n : nat) : list Event :=
  match n with
  | O => []
  | S m => exchange ++ exchanges m
  end.

(** No user turn comes directly after another user turn. *)
Fixpoint answered (ms : list Message) : bool :=
  match ms with
  | m1 :: rest =>
      match rest with
      | m2 :: _ => negb (isUserTurn m1 && isUserTurn m2)
      | [] => true
      end && answered rest
  | [] => true
  end.

(** The transcript ends with a user turn. *)
Definition lastIsUser (ms : list Message) : bool :=
  match last ms with
  | Some m => isUserTurn m
  | None => false
  end.

(** The turns are in the order of the requests: a user turn is never
    directly followed by another, and one that stands last still awaits its
    answer. *)
Record inRequestOrder (w : World) : Prop := {
  turns_answered : answered (messages (ui w)) = true;
  last_awaited : lastIsUser (messages (ui w)) = true -> isLoading (ui w) = true }.

(** No reply to a query arrives along the run. *)
Fixpoint noQueryCompletes (evs : list Event) (w : World) : Prop :=
  match evs with
  | [] => True
  | e :: rest => completesQuery e w = false /\ noQueryCompletes rest (step e w)
  end.

End Chat.

(** ** The compare page, [src/app/compare/page.tsx] *)
Module Compare.
Import JS Async.

Inductive Effect :=
| GetScore (typed : string)
| CompareStocks (tickers : list string)
| Alert (text : string)
| ConsoleError (label detail : string).

Section Page.

(** [OttoScore] is declared in [@/utils/types]; the page reads only its
    [ticker]. *)
Variable OttoScore : Type.
Variable ticker : OttoScore -> string.

(** [String.prototype.toUpperCase], with the Unicode tables of the engine. *)
Variable toUpperCase : string -> string.

Record State := {
  compareStocks : list OttoScore;
  searchTicker : string;
  loading : bool }.

Definition setCompareStocks (l : list OttoScore) (st : State) : State :=
  {| compareStocks := l; searchTicker := searchTicker st; loading := loading st |}.

Definition setSearchTicker (s : string) (st : State) : State :=
  {| compareStocks := compareStocks st; searchTicker := s; loading := loading st |}.

Definition setLoading (b : bool) (st : State) : State :=
  {| compareStocks := compareStocks st; searchTicker := searchTicker st; loading := b |}.

Definition initial : State :=
  {| compareStocks := []; searchTicker := ""; loading := false |}.

(** A handler suspended at its [await]: [handleAddStock] holds the
    [compareStocks] and [searchTicker] of the render it was called in. *)
Inductive Pending :=
| PAdd (stocks : list OttoScore) (typed : string)
| PQuick.

(** [compareStocks.some(stock => stock.ticker === searchTicker.toUpperCase())] *)
Definition alreadyAdded (stocks : list OttoScore) (typed : string) : bool :=
  existsb (fun stock => String.eqb (ticker stock) (toUpperCase typed)) stocks.

(** [handleAddStock] up to [await ottoAPI.getScore(searchTicker)]. *)
Definition handleAddStock_begin (st : State)
  : State * list Effect * option Pending :=
  if negb (truthy (trim (searchTicker st))) || Nat.leb 3 (length (compareStocks st))
  then (st, [], None)
  else if alreadyAdded (compareStocks st) (searchTicker st)
  then (st, [Alert "Stock already added to comparison"], None)
  else (setLoading true st, [GetScore (searchTicker st)],
        Some (PAdd (compareStocks st) (searchTicker st))).

(** [handleAddStock] from the reply on. *)
Definition handleAddStock_resume (stocks : list OttoScore) (typed : string)
    (o : Outcome OttoScore) (st : State) : State * list Effect :=
  let '(st1, eff) :=
    match o with
    | Replied stock =>
        (setSearchTicker "" (setCompareStocks (stocks ++ [stock]) st), [])
    | Threw _ =>
        (st, [Alert ("Could not find data for " +:+ toUpperCase typed)])
    end in
  (setLoading false st1, eff).

Definition removeStock (t : string) (st : State) : State :=
  setCompareStocks (filter (fun stock => ticker stock <> t) (compareStocks st)) st.

Definition quickTickers : list string := ["AAPL"; "MSFT"; "JNJ"].

Definition addQuickCompare_begin (st : State)
  : State * list Effect * option Pending :=
  (setLoading true st, [CompareStocks quickTickers], Some PQuick).

Definition addQuickCompare_resume (o : Outcome (list OttoScore)) (st : State)
  : State * list Effect :=
  let '(st1, eff) :=
    match o with
    | Replied stocks => (setCompareStocks stocks st, [])
    | Threw e => (st, [ConsoleError "Failed to load comparison stocks:" e])
    end in
  (setLoading false st1, eff).

(** *** The page as an event-driven machine

    The machine lets every handler run in every state, also where the page
    disables the button that calls it. *)

Record World := {
  ui : State;
  inflight : list Pending;
  trace : list Effect }.

Inductive Event :=
| TickerTyped (text : string)
| AddSubmitted
| ScoreReturned (k : nat) (o : Outcome OttoScore)
| RemoveClicked (t : string)
| QuickClicked
| QuickReturned (k : nat) (o : Outcome (list OttoScore)).

Definition start (r : State * list Effect * option Pending) (w : World) : World :=
  let '(st, eff, p) := r in
  {| ui := st; inflight := suspend p (inflight w); trace := trace w ++ eff |}.

Definition finish (k : nat) (r : State * list Effect) (w : World) : World :=
  let '(st, eff) := r in
  {| ui := st; inflight := delete k (inflight w); trace := trace w ++ eff |}.

Definition step (e : Event) (w : World) : World :=
  match e with
  | TickerTyped text =>
      {| ui := setSearchTicker text (ui w); inflight := inflight w; trace := trace w |}
  | AddSubmitted => start (handleAddStock_begin (ui w)) w
  | ScoreReturned k o =>
      match inflight w !! k with
      | Some (PAdd stocks typed) => finish k (handleAddStock_resume stocks typed o (ui w)) w
      | _ => w
      end
  | RemoveClicked t =>
      {| ui := removeStock t (ui w); inflight := inflight w; trace := trace w |}
  | QuickClicked => start (addQuickCompare_begin (ui w)) w
  | QuickReturned k o =>
      match inflight w !! k with
      | Some PQuick => finish k (addQuickCompare_resume o (ui w)) w
      | _ => w
      end
  end.

Fixpoint run (evs : list Event) (w : World) : World :=
  match evs with
  | [] => w
  | e :: rest => run rest (step e w)
  end.

Definition boot : World := {| ui := initial; inflight := []; trace := [] |}.

(** What is assumed of [ottoAPI], whose code is in [@/utils/api]. *)

(** [compareStocks] on the three quick tickers answers with at most three
    stocks. *)
Definition quickWithin (e : Event) : Prop :=
  match e with
  | QuickReturned _ (Replied stocks) => length stocks <= 3
  | _ => True
  end.

(** [getScore(t)] answers with a stock whose ticker is [t] in upper case, and
    the stocks [compareStocks] answers with have distinct tickers. *)
Definition answersAsAssumed (e : Event) (w : World) : Prop :=
  match e with
  | ScoreReturned k (Replied stock) =>
      match inflight w !! k with
      | Some (PAdd _ typed) => ticker stock = toUpperCase typed
      | _ => True
      end
  | QuickReturned k (Replied stocks) => NoDup (ticker <$> stocks)
  | _ => True
  end.

Fixpoint apiAsAssumed (evs : list Event) (w : World) : Prop :=
  match evs with
  | [] => True
  | e :: rest => answersAsAssumed e w /\ apiAsAssumed rest (step e w)
  end.

(** The list has room for one more stock in every [handleAddStock] that
    awaits its score. *)
Record bounded (w : World) : Prop := {
  at_most_three : length (compareStocks (ui w)) <= 3;
  room_left : forall k stocks typed,
    inflight w !! k = Some (PAdd stocks typed) -> length stocks < 3 }.

(** The tickers are distinct, and the ticker awaited by a [handleAddStock]
    is not among those of the list it will extend. *)
Record distinct (w : World) : Prop := {
  no_twice : NoDup (ticker <$> compareStocks (ui w));
  not_yet : forall k stocks typed,
    inflight w !! k = Some (PAdd stocks typed) ->
    NoDup (ticker <$> stocks) /\ toUpperCase typed ∉ (ticker <$> stocks) }.

End Page.

Arguments Build_State {OttoScore}.
Arguments compareStocks {OttoScore}.
Arguments searchTicker {OttoScore}.
Arguments loading {OttoScore}.
Arguments setCompareStocks {OttoScore}.
Arguments setSearchTicker {OttoScore}.
Arguments setLoading {OttoScore}.
Arguments PAdd {OttoScore}.
Arguments PQuick {OttoScore}.
Arguments alreadyAdded {OttoScore}.
Arguments handleAddStock_begin {OttoScore}.
Arguments handleAddStock_resume {OttoScore}.
Arguments removeStock {OttoScore}.
Arguments addQuickCompare_begin {OttoScore}.
Arguments addQuickCompare_resume {OttoScore}.
Arguments Build_World {OttoScore}.
Arguments ui {OttoScore}.
Arguments inflight {OttoScore}.
Arguments trace {OttoScore}.
Arguments TickerTyped {OttoScore}.
Arguments AddSubmitted {OttoScore}.
Arguments ScoreReturned {OttoScore}.
Arguments RemoveClicked {OttoScore}.
Arguments QuickClicked {OttoScore}.
Arguments QuickReturned {OttoScore}.
Arguments start {OttoScore}.
Arguments finish {OttoScore}.
Arguments step {OttoScore}.
Arguments run {OttoScore}.
Arguments quickWithin {OttoScore}.
Arguments answersAsAssumed {OttoScore}.
Arguments apiAsAssumed {OttoScore}.
Arguments bounded {OttoScore}.
Arguments distinct {OttoScore}.

End Compare.

(** ** The calendar page, [src/unnamed/part_001] *)
Module Calendar.
Import JS.

Section Page.

(** [CalendarStock] is declared in [@/utils/types] and the table
    [calendarStocks] in [@/utils/mockData]. *)
Variable CalendarStock : Type.
Variables ticker companyName : CalendarStock -> string.
Variable calendarStocks : list CalendarStock.

(** [String.prototype.toLowerCase], with the Unicode tables of the engine. *)
Variable toLowerCase : string -> string.

Record State := {
  selectedStocks : list CalendarStock;
  searchTicker : string;
  searchResults : list CalendarStock }.

Definition setSelectedStocks (l : list CalendarStock) (st : State) : State :=
  {| selectedStocks := l; searchTicker := searchTicker st;
     searchResults := searchResults st |}.

Definition setSearchTicker (s : string) (st : State) : State :=
  {| selectedStocks := selectedStocks st; searchTicker := s;
     searchResults := searchResults st |}.

Definition setSearchResults (l : list CalendarStock) (st : State) : State :=
  {| selectedStocks := selectedStocks st; searchTicker := searchTicker st;
     searchResults := l |}.

(** The predicate handed to [calendarStocks.filter]. *)
Definition matchesQuery (query : string) (stock : CalendarStock) : bool :=
  includes (toLowerCase (ticker stock)) (toLowerCase query)
  || includes (toLowerCase (companyName stock)) (toLowerCase query).

Definition handleSearch (st : State) : State :=
  if truthy (trim (searchTicker st))
  then setSearchResults (List.filter (matchesQuery (searchTicker st)) calendarStocks) st
  else setSearchResults [] st.

(** [selectedStocks.find(s => s.ticker === stock.ticker)] as a truth value. *)
Definition isSelected (l : list CalendarStock) (stock : CalendarStock) : bool :=
  existsb (fun s => String.eqb (ticker s) (ticker stock)) l.

Definition addStock (stock : CalendarStock) (st : State) : State :=
  if Nat.ltb (length (selectedStocks st)) 3 && negb (isSelected (selectedStocks st) stock)
  then setSearchTicker ""
         (setSearchResults [] (setSelectedStocks (selectedStocks st ++ [stock]) st))
  else st.

Definition removeStock (t : string) (st : State) : State :=
  setSelectedStocks
    (List.filter (fun s => negb (String.eqb (ticker s) t)) (selectedStocks st)) st.

(** [text] contains [query] when case is ignored: brought to lower case,
    the query occurs in the text brought to lower case. *)
Definition containsIgnoringCase (text query : string) : Prop :=
  occurs (toLowerCase query) (toLowerCase text).

(** What a search for [query] is meant to find: the stocks whose ticker or
    company name contains it when case is ignored. *)
Definition wanted (query : string) (stock : CalendarStock) : Prop :=
  containsIgnoringCase (ticker stock) query
  \/ containsIgnoringCase (companyName stock) query.

End Page.

Arguments wanted {CalendarStock}.
Arguments Build_State {CalendarStock}.
Arguments selectedStocks {CalendarStock}.
Arguments searchTicker {CalendarStock}.
Arguments searchResults {CalendarStock}.
Arguments setSelectedStocks {CalendarStock}.
Arguments setSearchTicker {CalendarStock}.
Arguments setSearchResults {CalendarStock}.
Arguments matchesQuery {CalendarStock}.
Arguments handleSearch {CalendarStock}.
Arguments isSelected {CalendarStock}.
Arguments addStock {CalendarStock}.
Arguments removeStock {CalendarStock}.

End Calendar.

(** ** The Restricted Execution Sandbox *)
Module Sandbox.

(** Modelled from the spec: the syntax tree the static admission check walks.
    The sandbox itself (the backend's Python tool) is not among the sources;
    what follows writes out section 4.1 of the specification.  A submission
    is taken after parsing. *)
#[warnings="-register-all"]
Inductive Node :=
| Import (modname : string)
| Name (ident : string)
| Literal (text : string)
| Attribute (object : Node) (attr : string)
| Call (callee : Node) (args : list Node)
| Block (body : list Node).

(** Modelled from the spec: the deny-list of identifiers (process, OS,
    network, file and reflection primitives, module names among them) and the
    allow-list of modules that may be imported. *)
Record Policy := {
  denyList : list string;
  allowList : list string }.

(** Modelled from the spec: the per-call configuration. *)
Record Limits := {
  maxWallClock : N;
  maxMemory : N;
  outputCap : nat }.

(** Modelled from the spec: the Sandbox Verdict, exactly one variant. *)
Inductive Verdict :=
| Allowed (output : string)
| Denied (reason : string)
| Faulted (msg : string)
| Exhausted.

(** Modelled from the spec: how an isolated execution context ends. *)
Inductive Ran :=
| Finished (output : string)
| Raised (msg : string)
| Overran.

(** Modelled from the spec: what the host keeps count of, the contexts
    allocated so far (the resource-allocation counter) and the submissions
    that were run. *)
Record Host := {
  allocated : nat;
  executed : list Node }.

(** Modelled from the spec: membership in a deny-list or allow-list. *)
Definition listed (x : string) (l : list string) : bool :=
  existsb (String.eqb x) l.

(** Modelled from the spec: the forbidden constructs of a submission, in
    source order.  A name is forbidden when it is on the deny-list; an import
    names its module, so it is forbidden when the module is on the deny-list,
    and also when the module is outside the allow-list. *)
Fixpoint violations (p : Policy) (n : Node) : list string :=
  match n with
  | Import m =>
      if listed m (denyList p) then ["import of '" +:+ m +:+ "' is not allowed"]
      else if listed m (allowList p) then []
      else ["import of '" +:+ m +:+ "' is outside the allowed modules"]
  | Name x =>
      if listed x (denyList p) then ["use of '" +:+ x +:+ "' is not allowed"] else []
  | Literal _ => []
  | Attribute o a =>
      violations p o ++
      (if listed a (denyList p) then ["use of '" +:+ a +:+ "' is not allowed"] else [])
  | Call f args => violations p f ++ List.flat_map (violations p) args
  | Block body => List.flat_map (violations p) body
  end.

(** Modelled from the spec: phase 1, the static admission check, a pure
    function of the submission: [None] admits it, [Some reason] denies it. *)
Definition staticCheck (p : Policy) (code : Node) : option string :=
  head (violations p code).

(** Modelled from the spec: captured output is truncated at the cap. *)
Fixpoint truncate (cap : nat) (s : string) : string :=
  match cap, s with
  | S c, String a r => String a (truncate c r)
  | _, _ => EmptyString
  end.

Section Execution.

(** Modelled from the spec: phase 2, the isolated execution of an admitted
    submission under the limits, left abstract. *)
Variable isolatedRun : Limits -> Node -> Ran.

(** Modelled from the spec: an execution request.  The admission check runs
    before any resource is allocated; only an admitted submission gets a
    context and is run. *)
Definition execute (p : Policy) (lim : Limits) (code : Node) (h : Host)
  : Verdict * Host :=
  match staticCheck p code with
  | Some reason => (Denied reason, h)
  | None =>
      let h' := {| allocated := S (allocated h); executed := executed h ++ [code] |} in
      (match isolatedRun lim code with
       | Finished out => Allowed (truncate (outputCap lim) out)
       | Raised msg => Faulted msg
       | Overran => Exhausted
       end, h')
  end.

End Execution.

(** Modelled from the spec: a submission contains an import of module [m]. *)
Inductive importsModule (m : string) : Node -> Prop :=
| im_here : importsModule m (Import m)
| im_object o a : importsModule m o -> importsModule m (Attribute o a)
| im_callee f args : importsModule m f -> importsModule m (Call f args)
| im_arg f args a : In a args -> importsModule m a -> importsModule m (Call f args)
| im_body body a : In a body -> importsModule m a -> importsModule m (Block body).

End Sandbox.

(** ** Rendering a message, [formatMessage] of [src/app/page.tsx] *)
Module Format.
Import JS.

(** [.] does not match a line terminator: LF, CR, U+2028 (E2 80 A8) and
    U+2029 (E2 80 A9).  [startsTerminator s]: [s] starts with one. *)
Definition startsTerminator (s : string) : bool :=
  match s with
  | EmptyString => false
  | String a r =>
      ((N_of_ascii a =? 10) || (N_of_ascii a =? 13))%N
      || match r with
         | String b (String c _) =>
             ((N_of_ascii a =? 226) && (N_of_ascii b =? 128)
              && ((N_of_ascii c =? 168) || (N_of_ascii c =? 169)))%N
         | _ => false
         end
  end.

Fixpoint dropChars (n : nat) (s : string) : string :=
  match n, s with
  | S k, String _ r => dropChars k r
  | _, _ => s
  end.

(** The lazy group [(.*?)] (or [([\s\S]*?)] when [dotAll]) followed by the
    closing delimiter, matched at the start of [s]: the delimiter is tried
    first, and only when it does not match is one more character taken into
    the group.  The result is the text of the group. *)
Fixpoint findClose (delim : string) (dotAll : bool) (s : string) : option string :=
  if startsWith s delim then Some EmptyString
  else
    match s with
    | EmptyString => None
    | String c r =>
        if dotAll || negb (startsTerminator s)
        then option_map (String c) (findClose delim dotAll r)
        else None
    end.

(** [s.replace(/D(.*?)D/g, pre + '$1' + post)] for a delimiter [D]: the
    string is scanned from left to right; where a match starts it is
    replaced and the scan goes on after it (the [skip] characters of the
    match still ahead are passed over), elsewhere the character is kept. *)
Fixpoint replaceDelimited (delim : string) (dotAll : bool) (pre post : string)
    (skip : nat) (s : string) : string :=
  match s with
  | EmptyString => EmptyString
  | String c r =>
      match skip with
      | S k => replaceDelimited delim dotAll pre post k r
      | O =>
          if startsWith s delim then
            match findClose delim dotAll (dropChars (String.length delim) s) with
            | Some group =>
                pre +:+ group +:+ post +:+
                replaceDelimited delim dotAll pre post
                  (String.length delim + String.length group + String.length delim - 1) r
            | None => String c (replaceDelimited delim dotAll pre post 0 r)
            end
          else String c (replaceDelimited delim dotAll pre post 0 r)
      end
  end.

(** [s.replace(/\n/g, '<br>')] *)
Fixpoint breakLines (s : string) : string :=
  match s with
  | EmptyString => EmptyString
  | String c r =>
      if (N_of_ascii c =? 10)%N then "<br>" +:+ breakLines r
      else String c (breakLines r)
  end.

Definition quote : string := String (ascii_of_N 34) EmptyString.
Definition backtick : string := String (ascii_of_N 96) EmptyString.

Definition preOpen : string :=
  "<pre class=" +:+ quote +:+ "bg-gray-100 p-2 rounded mt-2 mb-2 overflow-x-auto"
  +:+ quote +:+ "><code>".

Definition codeOpen : string :=
  "<code class=" +:+ quote +:+ "bg-gray-100 px-1 rounded" +:+ quote +:+ ">".

(** The first four [replace] calls of [formatMessage]. *)
Definition markup (content : string) : string :=
  let bold := replaceDelimited "**" false "<strong>" "</strong>" 0 content in
  let emph := replaceDelimited "*" false "<em>" "</em>" 0 bold in
  let block := replaceDelimited (backtick +:+ backtick +:+ backtick) true
                 preOpen "</code></pre>" 0 emph in
  replaceDelimited backtick false codeOpen "</code>" 0 block.

(** The [__html] of [formatMessage(content)]. *)
Definition formatMessage (content : string) : string :=
  breakLines (markup content).

(** Number of occurrences of a character. *)
Fixpoint count (c : ascii) (s : string) : nat :=
  match s with
  | EmptyString => 0
  | String a r => (if Ascii.eqb a c then 1 else 0) + count c r
  end.

Definition star : ascii := ascii_of_N 42.
Definition tick : ascii := ascii_of_N 96.
Definition lineFeed : ascii := ascii_of_N 10.
Definition carriageReturn : ascii := ascii_of_N 13.

(** Text without markup: no star, no backtick, no line break. *)
Definition plain (s : string) : Prop :=
  count star s = 0 /\ count tick s = 0 /\
  count lineFeed s = 0 /\ count carriageReturn s = 0.

Definition lineSeparator : string := utf8 8232.
Definition paragraphSeparator : string := utf8 8233.

(** Text in one line: none of the four line terminators. *)
Definition oneLine (s : string) : Prop :=
  count lineFeed s = 0 /\ count carriageReturn s = 0 /\
  ~ occurs lineSeparator s /\ ~ occurs paragraphSeparator s.

(** [s] holds a line terminator at some position. *)
Fixpoint holdsTerminator (s : string) : bool :=
  startsTerminator s ||
  match s with
  | EmptyString => false
  | String _ r => holdsTerminator r
  end.

(** The group of a pass may hold [t]: every character of [t] is one the
    group accepts. *)
Definition fits (dotAll : bool) (t : string) : Prop :=
  dotAll = true \/ holdsTerminator t = false.

(** The lines of a text: what stands between its line feeds. *)
Fixpoint lines (s : string) : list string :=
  match s with
  | EmptyString => [EmptyString]
  | String c r =>
      if Ascii.eqb c lineFeed then EmptyString :: lines r
      else
        match lines r with
        | l :: ls => String c l :: ls
        | [] => [String c EmptyString]
        end
  end.

(** The texts of a list in one string, with [sep] between them. *)
Fixpoint join (sep : string) (l : list string) : string :=
  match l with
  | [] => EmptyString
  | x :: rest =>
      match rest with
      | [] => x
      | _ :: _ => x +:+ sep +:+ join sep rest
      end
  end.

End Format.

(** ** More of the chat page, [src/app/page.tsx] *)
Module ChatKeys.
Import JS Async Chat.

(** The replies to the uploads of one [handleFileUpload], in the order of
    the files, each with the time it is handled at; [k] is the place of the
    handler among those in flight. *)
Definition uploadReplies (k : nat) (rs : list (N * Outcome AckData)) : list Event :=
  map (fun r => UploadReturned k r.1 r.2) rs.

(** The session identifier put in the form of an upload. *)
Definition formSession (sid : option string) : option string :=
  if truthyOpt sid then sid else None.

(** The upload notices a run of replies leaves in the transcript. *)
Fixpoint uploadNotices (fs : list File) (rs : list (N * Outcome AckData))
  : list Message :=
  match fs, rs with
  | f :: fs', r :: rs' => uploadTurn r.1 f r.2 ++ uploadNotices fs' rs'
  | _, _ => []
  end.

(** An entry of [files] reads "uploading" only while an upload of its file
    is in flight. *)
Definition uploadingAwaited (w : World) : Prop :=
  forall fu, fu ∈ files (ui w) -> status fu = uploading ->
    exists j f rest sid,
      inflight w !! j = Some (PUpload f rest sid) /\ sameFile (file fu) f = true.

End ChatKeys.

(** ** More of the compare page, [src/app/compare/page.tsx] *)
Module CompareMore.
Import JS Async Compare.

(** What [handleAddStock] checks before it asks for the score: the input is
    not blank, the list holds fewer than three stocks, and none of them has
    the ticker typed, in upper case. *)
Definition addable {OttoScore : Type} (ticker : OttoScore -> string)
    (toUpperCase : string -> string) (st : State OttoScore) : Prop :=
  truthy (trim (searchTicker st)) = true /\
  length (compareStocks st) < 3 /\
  toUpperCase (searchTicker st) ∉ (ticker <$> compareStocks st).

End CompareMore.

(** ** More of the calendar page, [src/unnamed/part_001] *)
Module CalendarMore.
Import JS Calendar.

Section Page.

Variable CalendarStock : Type.
Variables ticker companyName : CalendarStock -> string.
Variable calendarStocks : list CalendarStock.
Variable toLowerCase : string -> string.

Definition initial : State CalendarStock :=
  {| selectedStocks := []; searchTicker := ""; searchResults := [] |}.

(** The [disabled] of the two Add buttons:
    [selectedStocks.length >= 3 || selectedStocks.some(s => s.ticker === stock.ticker)]. *)
Definition addDisabled (stock : CalendarStock) (st : State CalendarStock) : bool :=
  Nat.leb 3 (length (selectedStocks st))
  || existsb (fun s => String.eqb (ticker s) (ticker stock)) (selectedStocks st).

(** What the user can do on the page; the Add click is let through also
    where its button is disabled. *)
Inductive Event :=
| Typed (text : string)
| SearchSubmitted
| AddClicked (stock : CalendarStock)
| RemoveClicked (t : string).

Definition step (e : Event) (st : State CalendarStock) : State CalendarStock :=
  match e with
  | Typed text => setSearchTicker text st
  | SearchSubmitted => handleSearch ticker companyName calendarStocks toLowerCase st
  | AddClicked stock => addStock ticker stock st
  | RemoveClicked t => removeStock ticker t st
  end.

Fixpoint run (evs : list Event) (st : State CalendarStock) : State CalendarStock :=
  match evs with
  | [] => st
  | e :: rest => run rest (step e st)
  end.

(** At most three stocks in the plan, of distinct tickers. *)
Definition tidy (st : State CalendarStock) : Prop :=
  length (selectedStocks st) <= 3 /\ NoDup (ticker <$> selectedStocks st).

End Page.

Arguments tidy {CalendarStock}.
Arguments initial {CalendarStock}.
Arguments addDisabled {CalendarStock}.
Arguments Typed {CalendarStock}.
Arguments SearchSubmitted {CalendarStock}.
Arguments AddClicked {CalendarStock}.
Arguments RemoveClicked {CalendarStock}.
Arguments step {CalendarStock}.
Arguments run {CalendarStock}.

End CalendarMore.

(** ** The score page, [src/unnamed/part_001] *)
Module Score.
Import JS Async.

Section Page.

(** [OttoScore] is declared in [@/utils/types], [mockStocks] in
    [@/utils/mockData], and [getScore] is [ottoAPI.getScore] of
    [@/utils/api]: the outcome of the awaited call for each ticker. *)
Variable OttoScore : Type.
Variable ticker : OttoScore -> string.
Variable mockStocks : list OttoScore.
Variable getScore : string -> Outcome OttoScore.

(** The [ticker] fields of the parameters [generateStaticParams] returns. *)
Definition generateStaticParams : list string :=
  map (fun stock => toUpperCase (ticker stock)) mockStocks.

(** What [ScorePage] renders below the header: the card of the error branch
    with its first line, or the [ScoreCard] of the stock. *)
Inductive View :=
| ErrorCard (text : string)
| ScoreCard (stock : OttoScore).

(** [ScorePage({ params })], [params_ticker] being [params.ticker]. *)
Definition ScorePage (params_ticker : string) : View :=
  let ticker := toUpperCase params_ticker in
  match getScore ticker with
  | Replied stock => ScoreCard stock
  | Threw _ => ErrorCard ("Could not load data for " +:+ ticker)
  end.

End Page.

Arguments generateStaticParams {OttoScore}.
Arguments ErrorCard {OttoScore}.
Arguments ScoreCard {OttoScore}.
Arguments ScorePage {OttoScore}.

End Score.

(** ** The screener page, [src/app/screener/page.tsx] *)
Module Screener.
Import JS Async.

Section Page.

(** [OttoScore] and [ScreenerFilters] are declared in [@/utils/types];
    [noFilters] is the object [{}] the filters start from. *)
Variables OttoScore ScreenerFilters : Type.
Variable noFilters : ScreenerFilters.

Record State := {
  stocks : list OttoScore;
  loading : bool;
  filters : ScreenerFilters }.

Definition setStocks (l : list OttoScore) (st : State) : State :=
  {| stocks := l; loading := loading st; filters := filters st |}.

Definition setLoading (b : bool) (st : State) : State :=
  {| stocks := stocks st; loading := b; filters := filters st |}.

Definition setFilters (f : ScreenerFilters) (st : State) : State :=
  {| stocks := stocks st; loading := loading st; filters := f |}.

Definition initial : State :=
  {| stocks := []; loading := false; filters := noFilters |}.

Inductive Effect :=
| ScreenStocks (asked : ScreenerFilters)
| ConsoleError (label detail : string).

(** A [loadStocks] suspended at its [await]; [asked] records the filters of
    the request whose reply it awaits. *)
Inductive Pending :=
| PLoad (asked : ScreenerFilters).

(** [loadStocks(searchFilters?)] up to its [await]: a filters object is
    truthy, so [searchFilters || filters] is the argument when there is one
    and the [filters] of the render otherwise. *)
Definition loadStocks_begin (searchFilters : option ScreenerFilters) (st : State)
  : State * list Effect * option Pending :=
  let asked := match searchFilters with
               | Some f => f
               | None => filters st
               end in
  (setLoading true st, [ScreenStocks asked], Some (PLoad asked)).

(** [loadStocks] from the reply on. *)
Definition loadStocks_resume (o : Outcome (list OttoScore)) (st : State)
  : State * list Effect :=
  let '(st1, eff) :=
    match o with
    | Replied results => (setStocks results st, [])
    | Threw e => (st, [ConsoleError "Failed to load stocks:" e])
    end in
  (setLoading false st1, eff).

Definition handleFiltersChange (newFilters : ScreenerFilters) (st : State)
  : State * list Effect * option Pending :=
  loadStocks_begin (Some newFilters) (setFilters newFilters st).

(** The heading above the results. *)
Definition heading (st : State) : string :=
  if loading st then "Searching..."
  else toString (N.of_nat (length (stocks st))) +:+ " Results Found".

Record World := {
  ui : State;
  inflight : list Pending;
  trace : list Effect }.

Inductive Event :=
| FiltersChanged (newFilters : ScreenerFilters)
| Loaded (k : nat) (o : Outcome (list OttoScore)).

Definition start (r : State * list Effect * option Pending) (w : World) : World :=
  let '(st, eff, p) := r in
  {| ui := st; inflight := suspend p (inflight w); trace := trace w ++ eff |}.

Definition finish (k : nat) (r : State * list Effect) (w : World) : World :=
  let '(st, eff) := r in
  {| ui := st; inflight := delete k (inflight w); trace := trace w ++ eff |}.

Definition step (e : Event) (w : World) : World :=
  match e with
  | FiltersChanged f => start (handleFiltersChange f (ui w)) w
  | Loaded k o =>
      match inflight w !! k with
      | Some (PLoad _) => finish k (loadStocks_resume o (ui w)) w
      | None => w
      end
  end.

Fixpoint run (evs : list Event) (w : World) : World :=
  match evs with
  | [] => w
  | e :: rest => run rest (step e w)
  end.

(** The page once mounted: the [useEffect] has called [loadStocks()]. *)
Definition boot : World :=
  start (loadStocks_begin None initial) {| ui := initial; inflight := []; trace := [] |}.

(** The filters of the request sent last. *)
Fixpoint lastAsked (tr : list Effect) : option ScreenerFilters :=
  match tr with
  | [] => None
  | e :: rest =>
      match lastAsked rest with
      | Some f => Some f
      | None => match e with ScreenStocks f => Some f | ConsoleError _ _ => None end
      end
  end.

End Page.

Arguments Build_State {OttoScore ScreenerFilters}.
Arguments stocks {OttoScore ScreenerFilters}.
Arguments loading {OttoScore ScreenerFilters}.
Arguments filters {OttoScore ScreenerFilters}.
Arguments setStocks {OttoScore ScreenerFilters}.
Arguments setLoading {OttoScore ScreenerFilters}.
Arguments setFilters {OttoScore ScreenerFilters}.
Arguments initial {OttoScore ScreenerFilters}.
Arguments ScreenStocks {ScreenerFilters}.
Arguments ConsoleError {ScreenerFilters}.
Arguments PLoad {ScreenerFilters}.
Arguments loadStocks_begin {OttoScore ScreenerFilters}.
Arguments loadStocks_resume {OttoScore ScreenerFilters}.
Arguments handleFiltersChange {OttoScore ScreenerFilters}.
Arguments heading {OttoScore ScreenerFilters}.
Arguments Build_World {OttoScore ScreenerFilters}.
Arguments ui {OttoScore ScreenerFilters}.
Arguments inflight {OttoScore ScreenerFilters}.
Arguments trace {OttoScore ScreenerFilters}.
Arguments FiltersChanged {OttoScore ScreenerFilters}.
Arguments Loaded {OttoScore ScreenerFilters}.
Arguments start {OttoScore ScreenerFilters}.
Arguments finish {OttoScore ScreenerFilters}.
Arguments step {OttoScore ScreenerFilters}.
Arguments run {OttoScore ScreenerFilters}.
Arguments boot {OttoScore ScreenerFilters}.
Arguments lastAsked {ScreenerFilters}.

End Screener.

(** * Properties *)

(** ** String primitives *)
Module JSFacts.
Import JS.

Example trim_spaces : trim "  a b  " = "a b".
Proof. reflexivity. Qed.

Example trim_only_spaces : trim "   " = "".
Proof. reflexivity. Qed.

Example upper_mixed : toUpperCase "aapl.X" = "AAPL.X".
Proof. reflexivity. Qed.

Example includes_mid : includes "johnson" "hns" = true.
Proof. reflexivity. Qed.

Example includes_none : includes "johnson" "hnx" = false.
Proof. reflexivity. Qed.

Example radix36 : toStringRadix 36 1295 = "zz" /\ toStringRadix 36 1296 = "100".
Proof. split; reflexivity. Qed.

Example decimal_now : toString 1700000000000 = "1700000000000".
Proof. reflexivity. Qed.

Lemma truthy_append a b : truthy (a +:+ b) = truthy a || truthy b.
Proof. destruct a; simpl; [destruct b|]; reflexivity. Qed.

Lemma truthy_nonempty s : truthy s = true <-> s <> "".
Proof. destruct s; simpl; split; congruence. Qed.

Lemma digitsFrom_truthy fuel radix n acc :
  truthy (digitsFrom fuel radix n acc) = true.
Proof.
  revert n acc. induction fuel as [|f IH]; intros n acc; simpl; [reflexivity|].
  destruct (n / radix =? 0)%N; [reflexivity | apply IH].
Qed.

(** A number always prints at least one digit. *)
Lemma toStringRadix_truthy radix n : truthy (toStringRadix radix n) = true.
Proof. apply digitsFrom_truthy. Qed.

(** *** Blank strings *)

Lemma append_cons a s t : String a s +:+ t = String a (s +:+ t).
Proof. reflexivity. Qed.

Lemma append_nil t : "" +:+ t = t.
Proof. reflexivity. Qed.

Lemma ascii_of_code a n : N_of_ascii a = n -> a = ascii_of_N n.
Proof. intros <-. symmetry. apply ascii_N_embedding. Qed.

Lemma inRange_spec lo hi n : inRange lo hi n = true <-> (lo <= n <= hi)%N.
Proof. unfold inRange. rewrite andb_true_iff, !N.leb_le. tauto. Qed.

(** Passing over the bytes that are left of a character. *)
Lemma onlyWhite_skip p rest :
  onlyWhite (String.length p) (p +:+ rest) = onlyWhite 0 rest.
Proof.
  induction p as [|a p IH]; [reflexivity|].
  rewrite append_cons. exact IH.
Qed.

(** The byte patterns of [whiteLength] are the encodings of the code points
    of [whiteSpace], one way ... *)
Lemma whiteLength_char s k :
  whiteLength s = S k ->
  exists cp rest,
    cp ∈ whiteSpace /\ s = utf8 cp +:+ rest /\ String.length (utf8 cp) = S k.
Proof.
  assert (forall cp, In cp whiteSpace -> cp ∈ whiteSpace) as Hin
    by (intros cp; apply list_elem_of_In).
  destruct s as [|a r]; [discriminate|]. cbn [whiteLength].
  destruct (white1 (N_of_ascii a)) eqn:H1.
  { intros [= <-]. unfold white1 in H1.
    rewrite orb_true_iff, inRange_spec, N.eqb_eq in H1.
    assert (N_of_ascii a = 9 \/ N_of_ascii a = 10 \/ N_of_ascii a = 11 \/
            N_of_ascii a = 12 \/ N_of_ascii a = 13 \/ N_of_ascii a = 32)%N
      as Ha by lia.
    exists (N_of_ascii a), r.
    decompose [or] Ha; match goal with H : N_of_ascii a = _ |- _ =>
      rewrite H; apply ascii_of_code in H; subst a end;
      (split; [apply Hin; simpl; tauto | split; reflexivity]). }
  destruct r as [|b r]; [discriminate|].
  destruct (white2 (N_of_ascii a) (N_of_ascii b)) eqn:H2.
  { intros [= <-]. unfold white2 in H2.
    rewrite andb_true_iff, !N.eqb_eq in H2. destruct H2 as [Ha Hb].
    apply ascii_of_code in Ha, Hb. subst a b. exists 160%N, r.
    split; [apply Hin; simpl; tauto | split; reflexivity]. }
  destruct r as [|c r]; [discriminate|].
  destruct (white3 (N_of_ascii a) (N_of_ascii b) (N_of_ascii c)) eqn:H3;
    [|discriminate].
  intros [= <-]. unfold white3 in H3.
  rewrite !orb_true_iff, !andb_true_iff, !orb_true_iff, inRange_spec, !N.eqb_eq
    in H3.
  assert (exists cp, In cp whiteSpace /\
            String a (String b (String c "")) = utf8 cp /\
            String.length (utf8 cp) = 3) as (cp & Hcp & Henc & Hlen).
  { assert (forall x y z cp,
              N_of_ascii a = x -> N_of_ascii b = y -> N_of_ascii c = z ->
              In cp whiteSpace ->
              String (ascii_of_N x) (String (ascii_of_N y) (String (ascii_of_N z) ""))
              = utf8 cp ->
              String.length (utf8 cp) = 3 ->
              exists cp, In cp whiteSpace /\
                String a (String b (String c "")) = utf8 cp /\
                String.length (utf8 cp) = 3) as Hgo.
    { intros x y z cp Ha Hb Hc Hcp Henc Hlen.
      apply ascii_of_code in Ha, Hb, Hc. subst a b c. by exists cp. }
    destruct H3 as [[[[H|H]|H]|H]|H].
    - destruct H as [[Ha Hb] Hc].
      apply (Hgo _ _ _ 5760%N Ha Hb Hc); [simpl; tauto | reflexivity | reflexivity].
    - destruct H as [[Ha Hb] Hc].
      assert (N_of_ascii c = 128 \/ N_of_ascii c = 129 \/ N_of_ascii c = 130 \/
              N_of_ascii c = 131 \/ N_of_ascii c = 132 \/ N_of_ascii c = 133 \/
              N_of_ascii c = 134 \/ N_of_ascii c = 135 \/ N_of_ascii c = 136 \/
              N_of_ascii c = 137 \/ N_of_ascii c = 138 \/ N_of_ascii c = 168 \/
              N_of_ascii c = 169 \/ N_of_ascii c = 175)%N as Hc' by lia.
      clear Hc.
      decompose [or] Hc'; match goal with H : N_of_ascii c = ?z |- _ =>
        apply (Hgo _ _ _ (8064 + z)%N Ha Hb H);
          [simpl; tauto | reflexivity | reflexivity] end.
    - destruct H as [[Ha Hb] Hc].
      apply (Hgo _ _ _ 8287%N Ha Hb Hc); [simpl; tauto | reflexivity | reflexivity].
    - destruct H as [[Ha Hb] Hc].
      apply (Hgo _ _ _ 12288%N Ha Hb Hc); [simpl; tauto | reflexivity | reflexivity].
    - destruct H as [[Ha Hb] Hc].
      apply (Hgo _ _ _ 65279%N Ha Hb Hc); [simpl; tauto | reflexivity | reflexivity]. }
  exists cp, r. split; [by apply Hin|]. split; [|exact Hlen].
  by rewrite <- Henc.
Qed.

(** ... and the other. *)
Lemma whiteLength_utf8 cp rest :
  cp ∈ whiteSpace -> whiteLength (utf8 cp +:+ rest) = String.length (utf8 cp).
Proof.
  intros H. apply list_elem_of_In in H. simpl in H.
  decompose [or] H; try contradiction; subst cp; reflexivity.
Qed.

Lemma utf8_cons cp : exists a tail, utf8 cp = String a tail.
Proof. unfold utf8. repeat case_match; eauto. Qed.

Lemma onlyWhite_char cp rest :
  cp ∈ whiteSpace -> onlyWhite 0 (utf8 cp +:+ rest) = onlyWhite 0 rest.
Proof.
  intros H. pose proof (whiteLength_utf8 cp rest H) as Hw.
  destruct (utf8_cons cp) as (a & tail & Heq). rewrite Heq in *.
  rewrite append_cons in *. cbn [onlyWhite]. rewrite Hw.
  cbn [String.length]. apply onlyWhite_skip.
Qed.

Lemma length_append s t :
  String.length (s +:+ t) = String.length s + String.length t.
Proof. induction s as [|a s IH]; [reflexivity|]. rewrite append_cons. simpl. by rewrite IH. Qed.

(** [onlyWhite] recognises exactly the blank strings. *)
Lemma onlyWhite_blank s : onlyWhite 0 s = true <-> blank s.
Proof.
  split.
  - remember (String.length s) as n eqn:Hn. revert s Hn.
    induction n as [n IH] using lt_wf_ind. intros s Hn H.
    destruct s as [|a r]; [exists []; by split|].
    cbn [onlyWhite] in H.
    destruct (whiteLength (String a r)) as [|k] eqn:Hw; [discriminate|].
    destruct (whiteLength_char _ _ Hw) as (cp & rest & Hcp & Heq & Hlen).
    destruct (utf8 cp) as [|a' tail] eqn:Hu; [discriminate|].
    rewrite append_cons in Heq. injection Heq as -> ->.
    injection Hlen as <-. rewrite onlyWhite_skip in H.
    destruct (IH (String.length rest)) with (s := rest) as (cps & Hall & ->);
      [subst n; simpl; rewrite length_append; lia | reflexivity | exact H|].
    exists (cp :: cps). split; [by constructor|].
    cbn [encode]. by rewrite Hu.
  - intros (cps & Hall & ->). induction Hall as [|cp cps Hcp _ IH]; [reflexivity|].
    cbn [encode]. by rewrite onlyWhite_char.
Qed.

Lemma blank_dec s : blank s \/ ~ blank s.
Proof.
  rewrite <- onlyWhite_blank. destruct (onlyWhite 0 s); [by left | right; discriminate].
Qed.

Lemma trimStartFrom_empty k s : trimStartFrom k s = "" <-> onlyWhite k s = true.
Proof.
  revert k. induction s as [|a r IH]; intros k; [done|].
  cbn [trimStartFrom onlyWhite]. destruct k as [|k]; [|apply IH].
  destruct (whiteLength (String a r)) as [|k]; [done | apply IH].
Qed.

(** Where [trimStart] stops, no white space starts. *)
Lemma trimStartFrom_stops k s c r :
  trimStartFrom k s = String c r -> whiteLength (String c r) = 0.
Proof.
  revert k. induction s as [|a s IH]; intros k; [discriminate|].
  cbn [trimStartFrom]. destruct k as [|k]; [|apply IH].
  destruct (whiteLength (String a s)) as [|k] eqn:Hw; [|apply IH].
  intros H. by rewrite <- H.
Qed.

Lemma trimEnd_empty s : trimEnd s = "" <-> onlyWhite 0 s = true.
Proof.
  destruct s as [|c r]; [done|]. cbn [trimEnd].
  by destruct (onlyWhite 0 (String c r)).
Qed.

(** [trim] leaves nothing exactly of the strings made of white space. *)
Lemma trim_blank s : truthy (trim s) = false <-> blank s.
Proof.
  rewrite <- onlyWhite_blank. unfold trim, trimStart.
  destruct (trimStartFrom 0 s) as [|c r] eqn:Hs.
  - apply trimStartFrom_empty in Hs. by rewrite Hs.
  - pose proof (trimStartFrom_stops _ _ _ _ Hs) as Hw.
    assert (onlyWhite 0 (String c r) = false) as Hno
      by (cbn [onlyWhite]; by rewrite Hw).
    cbn [trimEnd]. rewrite Hno. cbn [truthy].
    split; [discriminate|]. intros H. apply trimStartFrom_empty in H. congruence.
Qed.

(** The white space beyond ASCII is removed as well. *)
Example trim_unicode :
  trim (utf8 160 +:+ utf8 65279 +:+ "a" +:+ utf8 8232 +:+ "b" +:+ utf8 12288 +:+ " ")
  = "a" +:+ utf8 8232 +:+ "b".
Proof. reflexivity. Qed.

(** *** Searching in a string *)

Lemma startsWith_spec s p : startsWith s p = true <-> exists rest, s = p +:+ rest.
Proof.
  revert s. induction p as [|b p IH]; intros s; simpl.
  - split; [intros _; by exists s | reflexivity].
  - destruct s as [|a s].
    + split; [discriminate | intros [rest H]; discriminate].
    + destruct (Ascii.eqb_spec a b) as [->|Hne].
      * rewrite IH. split; intros [rest H]; exists rest.
        -- by rewrite append_cons, H.
        -- rewrite append_cons in H. by injection H.
      * split; [discriminate|]. intros [rest H]. rewrite append_cons in H.
        injection H as H _. contradiction.
Qed.

Lemma includes_spec s needle :
  includes s needle = true <-> exists before after, s = before +:+ needle +:+ after.
Proof.
  induction s as [|a s IH].
  - cbn [includes]. rewrite orb_false_r, startsWith_spec. split.
    + intros [rest H]. by exists "", rest.
    + intros (before & after & H). destruct before; [by exists after|discriminate].
  - cbn [includes]. rewrite orb_true_iff, startsWith_spec, IH. split.
    + intros [[rest H]|(before & after & H)].
      * by exists "", rest.
      * exists (String a before), after. by rewrite append_cons, H.
    + intros (before & after & H). destruct before as [|c before].
      * left. by exists after.
      * right. rewrite append_cons in H. injection H as _ H. by exists before, after.
Qed.

Lemma sameText_lower s t : sameText s t <-> toLowerCase s = toLowerCase t.
Proof.
  unfold toLowerCase. revert t.
  induction s as [|a s IH]; intros [|b t]; cbn [sameText mapChars];
    try (split; [done | discriminate]); [split; done|].
  rewrite IH. unfold sameLetter.
  split; [by intros [-> ->] | intros H; by injection H].
Qed.

Lemma includes_occurs s needle : includes s needle = true <-> occurs needle s.
Proof. apply includes_spec. Qed.

End JSFacts.

(** ** Handlers in flight *)
Module AsyncFacts.
Import Async.

Lemma lookup_delete_from {A} (l : list A) k i x :
  delete k l !! i = Some x -> exists j, l !! j = Some x.
Proof.
  destruct (decide (i < k)) as [Hlt|Hge].
  - rewrite list_lookup_delete_lt by exact Hlt. eauto.
  - rewrite list_lookup_delete_ge by lia. eauto.
Qed.

Lemma lookup_suspend {A} (p : option A) (l : list A) i x :
  suspend p l !! i = Some x -> l !! i = Some x \/ p = Some x.
Proof.
  destruct p as [y|]; simpl; [|by left].
  intros H. apply lookup_app_Some in H as [H|[_ H]]; [by left|].
  right. destruct (i - length l) as [|n]; simpl in H; [congruence | discriminate].
Qed.

End AsyncFacts.

(** ** The chat page *)
Module ChatFacts.
Import JS Async Chat JSFacts AsyncFacts.

(** *** What each handler does to the transcript *)

Lemma sendMessage_begin_messages now st :
  messages (sendMessage_begin now st).1.1 =
  messages st ++ (if sendBlocked st then [] else [userMessage now (inputMessage st)]).
Proof.
  unfold sendMessage_begin. destruct (sendBlocked st); simpl;
    [by rewrite app_nil_r | reflexivity].
Qed.

Lemma sendMessage_resume_messages sent now o st :
  messages (sendMessage_resume sent now o st).1 = messages st ++ [replyTurn now o].
Proof.
  unfold sendMessage_resume, sendMessage_catch, replyTurn.
  destruct o as [e|d]; simpl; [reflexivity|].
  destruct (success d); simpl; [|reflexivity].
  destruct (truthyOpt (session_id d) && bool_decide (session_id d <> sent));
    reflexivity.
Qed.

Lemma sendMessage_resume_isLoading sent now o st :
  isLoading (sendMessage_resume sent now o st).1 = false.
Proof.
  unfold sendMessage_resume.
  destruct (match o with Replied _ => _ | Threw _ => _ end); reflexivity.
Qed.

Lemma uploadNext_messages sid fs st :
  messages (uploadNext sid fs st).1.1 = messages st.
Proof. destruct fs; reflexivity. Qed.

Lemma handleFileUpload_resume_messages f rest sid now o st :
  messages (handleFileUpload_resume f rest sid now o st).1.1 =
  messages st ++ uploadTurn now f o.
Proof.
  unfold handleFileUpload_resume. rewrite uploadNext_messages.
  destruct o as [e|d]; simpl; [by rewrite app_nil_r|].
  destruct (ack_success d); simpl; [reflexivity | by rewrite app_nil_r].
Qed.

Lemma clearMemory_begin_state ty st : (clearMemory_begin ty st).1.1 = st.
Proof.
  unfold clearMemory_begin. destruct (sessionId st) as [sid|]; [|reflexivity].
  destruct (truthy sid); reflexivity.
Qed.

Lemma clearMemory_resume_messages ty o st :
  messages (clearMemory_resume ty o st).1 =
  match ty with
  | conversation => if acknowledged o then [] else messages st
  | semantic => messages st
  end.
Proof.
  unfold clearMemory_resume, acknowledged.
  destruct o as [e|d]; simpl; [by destruct ty|].
  destruct (ack_success d), ty; reflexivity.
Qed.

(** *** The machine *)

Lemma run_app evs1 evs2 w : run (evs1 ++ evs2) w = run evs2 (run evs1 w).
Proof. revert w. induction evs1 as [|e evs1 IH]; intros w; simpl; [reflexivity | apply IH]. Qed.

(** Every event either empties the transcript (an acknowledged clear of the
    conversation) or appends to it. *)
Lemma step_messages e w :
  messages (ui (step e w)) =
  if clearsConversation e w then [] else messages (ui w) ++ turnsAdded e w.
Proof.
  destruct e as [text|now|k now o|fs|k now o|ty|k o|]; simpl.
  - by rewrite app_nil_r.
  - unfold start. pose proof (sendMessage_begin_messages now (ui w)) as H.
    destruct (sendMessage_begin now (ui w)) as [[st eff] p]. exact H.
  - destruct (inflight w !! k) as [[sent|f rest sid|ty]|]; simpl;
      try by rewrite app_nil_r.
    pose proof (sendMessage_resume_messages sent now o (ui w)) as H.
    destruct (sendMessage_resume sent now o (ui w)) as [st eff]. exact H.
  - unfold start, handleFileUpload_begin.
    pose proof (uploadNext_messages (sessionId (ui w)) fs (ui w)) as H.
    destruct (uploadNext (sessionId (ui w)) fs (ui w)) as [[st eff] p].
    simpl in *. by rewrite app_nil_r.
  - destruct (inflight w !! k) as [[sent|f rest sid|ty]|]; simpl;
      try by rewrite app_nil_r.
    pose proof (handleFileUpload_resume_messages f rest sid now o (ui w)) as H.
    destruct (handleFileUpload_resume f rest sid now o (ui w)) as [[st eff] p].
    exact H.
  - unfold start. pose proof (clearMemory_begin_state ty (ui w)) as H.
    destruct (clearMemory_begin ty (ui w)) as [[st eff] p]. simpl in *.
    subst st. by rewrite app_nil_r.
  - pose proof (clearMemory_resume_messages) as H.
    destruct (inflight w !! k) as [[sent|f rest sid|ty]|] eqn:Hk; simpl;
      try (destruct o; by rewrite app_nil_r).
    specialize (H ty o (ui w)).
    destruct (clearMemory_resume ty o (ui w)) as [st eff]. simpl in *.
    rewrite H. destruct o as [e|d], ty; simpl; by rewrite app_nil_r.
  - by rewrite app_nil_r.
Qed.

Lemma run_prefix evs w :
  keepsConversation evs w -> messages (ui w) `prefix_of` messages (ui (run evs w)).
Proof.
  revert w. induction evs as [|e evs IH]; intros w; simpl; [reflexivity|].
  intros [He Hrest]. etrans; [|apply IH, Hrest].
  rewrite step_messages, He. by apply prefix_app_r.
Qed.

(** *** Handlers in flight *)

Lemma queries_delete (l : list Pending) k p :
  l !! k = Some p ->
  length (List.filter isQuery l) =
  (if isQuery p then 1 else 0) + length (List.filter isQuery (delete k l)).
Proof.
  revert k. induction l as [|x l IH]; intros [|k] Hk; simpl in *; try discriminate.
  - injection Hk as ->. destruct (isQuery p); reflexivity.
  - destruct (isQuery x); simpl; rewrite (IH k Hk); destruct (isQuery p); lia.
Qed.

Lemma queries_suspend p (l : list Pending) :
  length (List.filter isQuery (suspend p l)) =
  length (List.filter isQuery l) +
  match p with Some x => if isQuery x then 1 else 0 | None => 0 end.
Proof.
  destruct p as [x|]; simpl; [|lia].
  rewrite List.filter_app, length_app. simpl. destruct (isQuery x); reflexivity.
Qed.

Lemma no_query_in_flight (l : list Pending) k sent :
  length (List.filter isQuery l) = 0 -> l !! k = Some (PQuery sent) -> False.
Proof.
  intros H0 Hk. rewrite (queries_delete l k _ Hk) in H0. simpl in H0. lia.
Qed.

(** *** What holds in every world the page can reach *)

Lemma consistent_boot rnd now : consistent (boot rnd now).
Proof.
  split; simpl; [reflexivity| |intros k sent H; by rewrite lookup_nil in H].
  rewrite truthy_append, toStringRadix_truthy. apply orb_true_r.
Qed.

Lemma uploadNext_frame sid fs st :
  isLoading (uploadNext sid fs st).1.1 = isLoading st /\
  sessionId (uploadNext sid fs st).1.1 = sessionId st /\
  match (uploadNext sid fs st).2 with Some p => isQuery p = false | None => True end.
Proof. destruct fs; simpl; auto. Qed.

Lemma handleFileUpload_resume_frame f rest sid now o st :
  let r := handleFileUpload_resume f rest sid now o st in
  isLoading r.1.1 = isLoading st /\ sessionId r.1.1 = sessionId st /\
  match r.2 with Some p => isQuery p = false | None => True end.
Proof.
  simpl. unfold handleFileUpload_resume.
  match goal with |- context [uploadNext sid rest ?s] =>
    destruct (uploadNext_frame sid rest s) as (-> & -> & H) end.
  split; [|split; [|exact H]];
    destruct o as [e|d]; simpl; try reflexivity; destruct (ack_success d); reflexivity.
Qed.

Lemma clearMemory_begin_pending ty st :
  match (clearMemory_begin ty st).2 with Some p => isQuery p = false | None => True end.
Proof.
  unfold clearMemory_begin. destruct (sessionId st) as [sid|]; [|exact I].
  destruct (truthy sid); simpl; auto.
Qed.

Lemma clearMemory_resume_frame ty o st :
  isLoading (clearMemory_resume ty o st).1 = isLoading st /\
  sessionId (clearMemory_resume ty o st).1 = sessionId st.
Proof.
  unfold clearMemory_resume. destruct o as [e|d]; simpl; [auto|].
  destruct (ack_success d), ty; simpl; auto.
Qed.

Lemma sendMessage_resume_sessionId sent now o st :
  sessionId (sendMessage_resume sent now o st).1 =
  match o with
  | Replied d =>
      if success d && truthyOpt (session_id d) && bool_decide (session_id d <> sent)
      then session_id d else sessionId st
  | Threw _ => sessionId st
  end.
Proof.
  unfold sendMessage_resume, sendMessage_catch.
  destruct o as [e|d]; simpl; [reflexivity|].
  destruct (success d); simpl; [|reflexivity].
  destruct (truthyOpt (session_id d) && bool_decide (session_id d <> sent));
    reflexivity.
Qed.

(** A handler that starts or resumes without touching the loading flag or
    the session, and suspends no query, keeps the world consistent. *)
Lemma consistent_frame w st l :
  consistent w ->
  isLoading st = isLoading (ui w) -> sessionId st = sessionId (ui w) ->
  length (List.filter isQuery l) = queriesInFlight w ->
  (forall k sent, l !! k = Some (PQuery sent) ->
     exists j, inflight w !! j = Some (PQuery sent)) ->
  forall eff, consistent {| ui := st; inflight := l; trace := eff |}.
Proof.
  intros [H1 H2 H3] Hl Hs Hq Hin eff. split; unfold queriesInFlight; simpl.
  - by rewrite Hq, Hl.
  - by rewrite Hs.
  - intros k sent Hk. destruct (Hin k sent Hk) as [j Hj]. rewrite Hs. eauto.
Qed.

Lemma consistent_start w r :
  consistent w ->
  isLoading r.1.1 = isLoading (ui w) -> sessionId r.1.1 = sessionId (ui w) ->
  match r.2 with Some p => isQuery p = false | None => True end ->
  consistent (start r w).
Proof.
  destruct r as [[st eff] p]. simpl. intros Hw Hl Hs Hp.
  apply (consistent_frame w); try assumption.
  - rewrite queries_suspend. unfold queriesInFlight.
    destruct p as [x|]; [rewrite Hp|]; lia.
  - intros k sent Hk. apply lookup_suspend in Hk as [Hk| ->]; [eauto|].
    discriminate Hp.
Qed.

Lemma consistent_finish w k q r :
  consistent w -> inflight w !! k = Some q -> isQuery q = false ->
  isLoading r.1.1 = isLoading (ui w) -> sessionId r.1.1 = sessionId (ui w) ->
  match r.2 with Some p => isQuery p = false | None => True end ->
  consistent (finish k r w).
Proof.
  destruct r as [[st eff] p]. simpl. intros Hw Hk Hq Hl Hs Hp.
  apply (consistent_frame w); try assumption.
  - rewrite queries_suspend. unfold queriesInFlight.
    rewrite (queries_delete _ _ _ Hk), Hq.
    destruct p as [x|]; [rewrite Hp|]; lia.
  - intros i sent Hi. apply lookup_suspend in Hi as [Hi| ->]; [|discriminate Hp].
    eapply lookup_delete_from, Hi.
Qed.

Lemma consistent_step e w : consistent w -> consistent (step e w).
Proof.
  intros Hw. destruct e as [text|now|k now o|fs|k now o|ty|k o|]; simpl.
  - apply (consistent_frame w); eauto.
  - unfold sendMessage_begin, sendBlocked.
    destruct (negb (truthy (trim (inputMessage (ui w))))); simpl.
    { by apply (consistent_start w (ui w, [], None)). }
    destruct (isLoading (ui w)) eqn:Hl; simpl.
    { by apply (consistent_start w (ui w, [], None)). }
    destruct Hw as [H1 H2 H3]. rewrite Hl in H1.
    split; unfold queriesInFlight in *; simpl.
    + rewrite List.filter_app, length_app, H1. reflexivity.
    + exact H2.
    + intros k sent Hk. apply lookup_app_Some in Hk as [Hk|[_ Hk]]; [eauto|].
      destruct (k - length (inflight w)) as [|n]; simpl in Hk;
        [congruence | discriminate].
  - destruct (inflight w !! k) as [[sent|f rest sid|ty]|] eqn:Hk; try exact Hw.
    pose proof (sendMessage_resume_sessionId sent now o (ui w)) as Hs.
    pose proof (sendMessage_resume_isLoading sent now o (ui w)) as Hl.
    destruct (sendMessage_resume sent now o (ui w)) as [st eff]. simpl in Hs, Hl.
    destruct Hw as [H1 H2 H3]. unfold queriesInFlight in H1.
    rewrite (queries_delete _ _ _ Hk) in H1. simpl in H1.
    assert (length (List.filter isQuery (delete k (inflight w))) = 0) as H0
      by (destruct (isLoading (ui w)); lia).
    split; unfold queriesInFlight; simpl.
    + by rewrite Hl.
    + rewrite Hs. destruct o as [e|d]; [exact H2|].
      destruct (success d); simpl; [|exact H2].
      destruct (truthyOpt (session_id d)) eqn:Ht; simpl; [|exact H2].
      destruct (bool_decide (session_id d <> sent)); [exact Ht | exact H2].
    + intros i s Hi. destruct (no_query_in_flight _ _ _ H0 Hi).
  - unfold handleFileUpload_begin.
    destruct (uploadNext_frame (sessionId (ui w)) fs (ui w)) as (Hl & Hs & Hp).
    by apply consistent_start.
  - destruct (inflight w !! k) as [[sent|f rest sid|ty]|] eqn:Hk; try exact Hw.
    destruct (handleFileUpload_resume_frame f rest sid now o (ui w)) as (Hl & Hs & Hp).
    by eapply consistent_finish.
  - apply consistent_start; try assumption.
    + by rewrite clearMemory_begin_state.
    + by rewrite clearMemory_begin_state.
    + apply clearMemory_begin_pending.
  - destruct (inflight w !! k) as [[sent|f rest sid|ty]|] eqn:Hk; try exact Hw.
    destruct (clearMemory_resume_frame ty o (ui w)) as (Hl & Hs).
    destruct (clearMemory_resume ty o (ui w)) as [st eff].
    by apply (consistent_finish w k (PClear ty) (st, eff, None)).
  - apply (consistent_frame w); eauto.
Qed.

Lemma consistent_run evs w : consistent w -> consistent (run evs w).
Proof.
  revert w. induction evs as [|e evs IH]; intros w Hw; simpl; [exact Hw|].
  apply IH, consistent_step, Hw.
Qed.

Lemma consistent_reachable rnd now evs : consistent (run evs (boot rnd now)).
Proof. apply consistent_run, consistent_boot. Qed.

(** *** One query at a time *)

Ltac open_handlers :=
  unfold start, finish, sendMessage_begin, sendMessage_resume, sendMessage_catch,
    handleFileUpload_begin, handleFileUpload_resume, uploadNext,
    clearMemory_begin, clearMemory_resume, sendBlocked in *.

Lemma sendMessage_begin_blocked now st :
  sendBlocked st = true -> sendMessage_begin now st = (st, [], None).
Proof. unfold sendMessage_begin. by intros ->. Qed.

Lemma loading_blocks st : isLoading st = true -> sendBlocked st = true.
Proof. unfold sendBlocked. intros ->. apply orb_true_r. Qed.

Lemma step_send_blocked now w :
  sendBlocked (ui w) = true -> step (SendClicked now) w = w.
Proof.
  intros H. simpl. rewrite (sendMessage_begin_blocked _ _ H).
  destruct w as [st l tr]. unfold start. simpl. by rewrite app_nil_r.
Qed.

(** While the flag is up no event sends a query. *)
Lemma step_no_query_fetch e w :
  isLoading (ui w) = true ->
  List.filter isQueryFetch (trace (step e w)) = List.filter isQueryFetch (trace w).
Proof.
  intros Hl. destruct e as [text|now|k now o|fs|k now o|ty|k o|];
    try reflexivity.
  - by rewrite (step_send_blocked now w (loading_blocks _ Hl)).
  - simpl. open_handlers. repeat case_match; simplify_eq/=;
      rewrite ?List.filter_app, ?app_nil_r; try reflexivity.
  - simpl. open_handlers. repeat case_match; simplify_eq/=;
      rewrite ?List.filter_app, ?app_nil_r; simpl; rewrite ?app_nil_r; reflexivity.
  - simpl. open_handlers. repeat case_match; simplify_eq/=;
      rewrite ?List.filter_app, ?app_nil_r; simpl; rewrite ?app_nil_r; reflexivity.
  - simpl. open_handlers. repeat case_match; simplify_eq/=;
      rewrite ?List.filter_app, ?app_nil_r; simpl; rewrite ?app_nil_r; reflexivity.
  - simpl. open_handlers. repeat case_match; simplify_eq/=;
      rewrite ?List.filter_app, ?app_nil_r; simpl; rewrite ?app_nil_r; reflexivity.
Qed.

(** While the flag is up only assistant turns are appended. *)
Lemma turnsAdded_loading e w :
  isLoading (ui w) = true ->
  Forall (fun m => role m = assistant) (turnsAdded e w).
Proof.
  intros Hl. destruct e as [text|now|k now o|fs|k now o|ty|k o|]; simpl;
    try by constructor.
  - rewrite (loading_blocks _ Hl). constructor.
  - destruct (inflight w !! k) as [[sent|f rest sid|ty]|]; try by constructor.
    repeat constructor. unfold replyTurn.
    destruct o as [e|d]; [reflexivity|]. by destruct (success d).
  - destruct (inflight w !! k) as [[sent|f rest sid|ty]|]; try by constructor.
    unfold uploadTurn. destruct o as [e|d]; [constructor|].
    destruct (ack_success d); by repeat constructor.
Qed.

(** *** Turns in the order of the requests *)

Lemma lastIsUser_snoc ms m : lastIsUser (ms ++ [m]) = isUserTurn m.
Proof. unfold lastIsUser. by rewrite last_snoc. Qed.

Lemma answered_snoc ms m :
  answered (ms ++ [m]) = answered ms && negb (lastIsUser ms && isUserTurn m).
Proof.
  induction ms as [|m1 ms IH]; [reflexivity|].
  destruct ms as [|m2 ms].
  - simpl. unfold lastIsUser. simpl. by rewrite !andb_true_r.
  - change ((m1 :: m2 :: ms) ++ [m]) with (m1 :: ((m2 :: ms) ++ [m])).
    change (answered (m1 :: (m2 :: ms) ++ [m])) with
      (negb (isUserTurn m1 && isUserTurn m2) && answered ((m2 :: ms) ++ [m])).
    rewrite IH.
    change (answered (m1 :: m2 :: ms)) with
      (negb (isUserTurn m1 && isUserTurn m2) && answered (m2 :: ms)).
    change (lastIsUser (m1 :: m2 :: ms)) with (lastIsUser (m2 :: ms)).
    by rewrite andb_assoc.
Qed.

Lemma step_isLoading e w :
  isLoading (ui (step e w)) =
  match e with
  | SendClicked _ => if sendBlocked (ui w) then isLoading (ui w) else true
  | QueryReturned k _ _ =>
      match inflight w !! k with
      | Some (PQuery _) => false
      | _ => isLoading (ui w)
      end
  | _ => isLoading (ui w)
  end.
Proof.
  destruct e as [text|now|k now o|fs|k now o|ty|k o|]; simpl; try reflexivity.
  - unfold sendMessage_begin. by destruct (sendBlocked (ui w)).
  - destruct (inflight w !! k) as [[sent|f rest sid|ty]|]; try reflexivity.
    pose proof (sendMessage_resume_isLoading sent now o (ui w)) as H.
    by destruct (sendMessage_resume sent now o (ui w)) as [st eff].
  - unfold handleFileUpload_begin.
    destruct (uploadNext_frame (sessionId (ui w)) fs (ui w)) as (Hl & _ & _).
    by destruct (uploadNext (sessionId (ui w)) fs (ui w)) as [[st eff] p].
  - destruct (inflight w !! k) as [[sent|f rest sid|ty]|]; try reflexivity.
    destruct (handleFileUpload_resume_frame f rest sid now o (ui w)) as (Hl & _ & _).
    by destruct (handleFileUpload_resume f rest sid now o (ui w)) as [[st eff] p].
  - pose proof (clearMemory_begin_state ty (ui w)) as H.
    destruct (clearMemory_begin ty (ui w)) as [[st eff] p]. simpl in *. by subst.
  - destruct (inflight w !! k) as [[sent|f rest sid|ty]|]; try reflexivity.
    destruct (clearMemory_resume_frame ty o (ui w)) as (Hl & _).
    by destruct (clearMemory_resume ty o (ui w)) as [st eff].
Qed.

Lemma replyTurn_assistant now o : isUserTurn (replyTurn now o) = false.
Proof. unfold replyTurn. destruct o as [e|d]; [reflexivity|]. by destruct (success d). Qed.

Lemma inRequestOrder_kept w w' :
  inRequestOrder w ->
  messages (ui w') = messages (ui w) -> isLoading (ui w') = isLoading (ui w) ->
  inRequestOrder w'.
Proof. intros [H1 H2] Hm Hl. split; rewrite Hm; [exact H1 | by rewrite Hl]. Qed.

Lemma inRequestOrder_assistant w w' m :
  inRequestOrder w -> isUserTurn m = false ->
  messages (ui w') = messages (ui w) ++ [m] -> inRequestOrder w'.
Proof.
  intros [H1 H2] Hm Heq. split; rewrite Heq.
  - by rewrite answered_snoc, H1, Hm, andb_false_r.
  - rewrite lastIsUser_snoc, Hm. discriminate.
Qed.

Lemma inRequestOrder_step e w : inRequestOrder w -> inRequestOrder (step e w).
Proof.
  intros Hw. pose proof (step_messages e w) as Hm. pose proof (step_isLoading e w) as Hl.
  destruct (clearsConversation e w) eqn:Hc.
  { split; rewrite Hm; [reflexivity | discriminate]. }
  destruct e as [text|now|k now o|fs|k now o|ty|k o|]; cbn [turnsAdded] in Hm;
    try (rewrite app_nil_r in Hm; by apply (inRequestOrder_kept w)).
  - destruct (sendBlocked (ui w)) eqn:Hb.
    { rewrite app_nil_r in Hm. by apply (inRequestOrder_kept w). }
    destruct Hw as [H1 H2]. split; rewrite Hm.
    + rewrite answered_snoc, H1. simpl. rewrite andb_true_r.
      destruct (lastIsUser (messages (ui w))); [|reflexivity].
      unfold sendBlocked in Hb. rewrite H2 in Hb by reflexivity.
      by rewrite orb_true_r in Hb.
    + intros _. exact Hl.
  - destruct (inflight w !! k) as [[sent|f rest sid|ty]|];
      try (rewrite app_nil_r in Hm; by apply (inRequestOrder_kept w)).
    eapply inRequestOrder_assistant; [exact Hw | apply replyTurn_assistant | exact Hm].
  - destruct (inflight w !! k) as [[sent|f rest sid|ty]|];
      try (rewrite app_nil_r in Hm; by apply (inRequestOrder_kept w)).
    unfold uploadTurn in Hm. destruct o as [ex|d].
    { rewrite app_nil_r in Hm. by apply (inRequestOrder_kept w). }
    destruct (ack_success d).
    + by eapply inRequestOrder_assistant; [exact Hw | | exact Hm].
    + rewrite app_nil_r in Hm. by apply (inRequestOrder_kept w).
Qed.

Lemma inRequestOrder_run evs w : inRequestOrder w -> inRequestOrder (run evs w).
Proof.
  revert w. induction evs as [|e evs IH]; intros w Hw; simpl; [exact Hw|].
  apply IH, inRequestOrder_step, Hw.
Qed.

Lemma inRequestOrder_boot rnd now : inRequestOrder (boot rnd now).
Proof. split; [reflexivity | discriminate]. Qed.

(** C3. While a query is in flight ([isLoading] is true) a further
    [sendMessage] returns at once: it sends nothing and changes nothing.  So
    in every world the page reaches there is one query in flight while the
    flag is up and none otherwise, no event issues a second one, and until
    the reply is handled the transcript only receives assistant turns (or
    is cleared).  The turns are therefore in the order of the requests: a
    user turn is never directly followed by another user turn, and a user
    turn that stands last is the one whose answer is awaited. *)
Theorem one_query_at_a_time rnd t0 evs :
  let w := run evs (boot rnd t0) in
  queriesInFlight w = (if isLoading (ui w) then 1 else 0) /\
  answered (messages (ui w)) = true /\
  (lastIsUser (messages (ui w)) = true -> isLoading (ui w) = true) /\
  (isLoading (ui w) = true ->
   (forall now, sendMessage_begin now (ui w) = (ui w, [], None)) /\
   (forall now, step (SendClicked now) w = w) /\
   forall e,
     List.filter isQueryFetch (trace (step e w)) = List.filter isQueryFetch (trace w) /\
     queriesInFlight (step e w) <= 1 /\
     (messages (ui (step e w)) = [] \/
      exists added, messages (ui (step e w)) = messages (ui w) ++ added /\
                    Forall (fun m => role m = assistant) added)).
Proof.
  intros w. pose proof (consistent_reachable rnd t0 evs) as Hw. fold w in Hw.
  pose proof (inRequestOrder_run evs _ (inRequestOrder_boot rnd t0)) as [Ha Hlast].
  fold w in Ha, Hlast.
  split; [apply (one_query _ Hw)|]. split; [exact Ha|]. split; [exact Hlast|].
  intros Hl. split; [|split].
  - intros now. apply sendMessage_begin_blocked, loading_blocks, Hl.
  - intros now. apply step_send_blocked, loading_blocks, Hl.
  - intros e. split; [|split].
    + apply step_no_query_fetch, Hl.
    + rewrite (one_query _ (consistent_step e w Hw)).
      destruct (isLoading (ui (step e w))); lia.
    + rewrite step_messages. destruct (clearsConversation e w); [by left|].
      right. eexists. split; [reflexivity|]. apply turnsAdded_loading, Hl.
Qed.

(** A question is typed and sent; a second click lands before the reply. *)
Lemma one_query_at_a_time_witness :
  let w := run [Typed "what is a list?"; SendClicked 7] (boot "k3x" 5) in
  isLoading (ui w) = true /\ queriesInFlight w = 1 /\
  step (SendClicked 8) (step (Typed "and a tuple?") w) = step (Typed "and a tuple?") w.
Proof.
  intros w.
  destruct (one_query_at_a_time "k3x" 5 [Typed "what is a list?"; SendClicked 7])
    as (Hone & _ & _ & _).
  destruct (one_query_at_a_time "k3x" 5
              [Typed "what is a list?"; SendClicked 7; Typed "and a tuple?"])
    as (_ & _ & _ & Hbusy).
  split; [reflexivity|]. split; [exact Hone|].
  destruct (Hbusy eq_refl) as (_ & Hstep & _). apply Hstep.
Defined.

(** *** Failed queries *)

(** C4. When the round trip of a query throws, or the body of the reply has
    [success = false], the continuation of [sendMessage] appends exactly one
    turn, an assistant turn whose content is the fixed apology; the detail of
    the failure goes to the console only, and the loading flag is down. *)
Theorem failed_query_fixed_apology sent now o st :
  queryFailed o ->
  let r := sendMessage_resume sent now o st in
  messages r.1 = messages st ++ [errorMessage now] /\
  role (errorMessage now) = assistant /\
  content (errorMessage now) = "Sorry, I encountered an error. Please try again." /\
  r.2 = [ConsoleError "Error sending message:" (failureDetail o)] /\
  isLoading r.1 = false.
Proof.
  intros Hf r. subst r. split; [|split; [|split; [|split]]]; try reflexivity.
  - rewrite sendMessage_resume_messages. unfold replyTurn.
    destruct o as [e|d]; [reflexivity|]. simpl in Hf. by rewrite Hf.
  - unfold sendMessage_resume. destruct o as [e|d]; [reflexivity|].
    simpl in Hf. by rewrite Hf.
  - apply sendMessage_resume_isLoading.
Qed.

(** The backend answers [success: false] with a stack trace in [error]. *)
Lemma failed_query_fixed_apology_witness :
  let d := {| success := false; response := ""; session_id := None;
              intermediate_steps := None;
              error_detail := Some "KeyError: 'agent' at app.py:88" |} in
  let st := setIsLoading true (setMessages (fun _ => [userMessage 3 "hello"]) initial) in
  messages (sendMessage_resume None 4 (Replied d) st).1 =
    [userMessage 3 "hello"; errorMessage 4] /\
  isLoading (sendMessage_resume None 4 (Replied d) st).1 = false.
Proof.
  intros d st.
  destruct (failed_query_fixed_apology None 4 (Replied d) st eq_refl)
    as (Hm & _ & _ & _ & Hl).
  split; [exact Hm | exact Hl].
Defined.

(** *** Append only *)

Lemma bySendOrUpload_keeps e w :
  bySendOrUpload e = true -> clearsConversation e w = false.
Proof. by destruct e. Qed.

Lemma bySendOrUpload_run evs w :
  Forall (fun e => bySendOrUpload e = true) evs -> keepsConversation evs w.
Proof.
  intros H. revert w. induction H as [|e evs He _ IH]; intros w; simpl; [exact I|].
  split; [by apply bySendOrUpload_keeps | apply IH].
Qed.

(** C5. Whatever [sendMessage] and [handleFileUpload] do to the transcript is
    an append: before and after their [await], and along any run of the two
    handlers however their replies interleave, the messages held before are
    a prefix of the messages held after. *)
Theorem transcript_append_only :
  (forall now st, messages st `prefix_of` messages (sendMessage_begin now st).1.1) /\
  (forall sent now o st,
     messages st `prefix_of` messages (sendMessage_resume sent now o st).1) /\
  (forall fs st, messages st `prefix_of` messages (handleFileUpload_begin fs st).1.1) /\
  (forall f rest sid now o st,
     messages st `prefix_of`
       messages (handleFileUpload_resume f rest sid now o st).1.1) /\
  (forall evs w,
     Forall (fun e => bySendOrUpload e = true) evs ->
     messages (ui w) `prefix_of` messages (ui (run evs w))).
Proof.
  split; [|split; [|split; [|split]]].
  - intros. rewrite sendMessage_begin_messages. by apply prefix_app_r.
  - intros. rewrite sendMessage_resume_messages. by apply prefix_app_r.
  - intros. unfold handleFileUpload_begin. by rewrite uploadNext_messages.
  - intros. rewrite handleFileUpload_resume_messages. by apply prefix_app_r.
  - intros evs w H. apply run_prefix, bySendOrUpload_run, H.
Qed.

(** A question is answered while a file is being uploaded. *)
Lemma transcript_append_only_witness :
  let notes := {| fileObj := 1; fileName := "lab1.pdf" |} in
  let answer := {| success := true; response := "A list is ..."; session_id := None;
                   intermediate_steps := None; error_detail := None |} in
  let evs := [Typed "what is a list?"; FilesChosen [notes]; SendClicked 7;
              UploadReturned 0 8 (Replied {| ack_success := true; ack_message := "ok" |});
              QueryReturned 0 9 (Replied answer)] in
  messages (ui (boot "k3x" 5)) `prefix_of` messages (ui (run evs (boot "k3x" 5))).
Proof.
  intros notes answer evs.
  apply (proj2 (proj2 (proj2 (proj2 transcript_append_only)))).
  subst evs. repeat constructor.
Defined.

(** *** No cap on the transcript *)

Lemma exchange_grows w :
  isLoading (ui w) = false -> inflight w = [] ->
  isLoading (ui (run exchange w)) = false /\
  inflight (run exchange w) = [] /\
  length (messages (ui (run exchange w))) = length (messages (ui w)) + 2.
Proof.
  destruct w as [[ms inp ld sid fs adv] l tr]. simpl. intros -> ->.
  unfold sendMessage_begin, sendBlocked, start. simpl.
  rewrite !length_app. simpl. repeat split. lia.
Qed.

Lemma exchanges_grow n w :
  isLoading (ui w) = false -> inflight w = [] ->
  length (messages (ui (run (exchanges n) w))) = length (messages (ui w)) + 2 * n.
Proof.
  revert w. induction n as [|n IH]; intros w Hl Hi.
  - simpl. lia.
  - change (exchanges (S n)) with (exchange ++ exchanges n). rewrite run_app. destruct (exchange_grows w Hl Hi) as (Hl' & Hi' & Hlen).
    rewrite (IH _ Hl' Hi'), Hlen. lia.
Qed.

(** Whatever the cap, enough exchanges take the transcript beyond it. *)
Lemma transcript_exceeds_any_cap :
  ~ exists cap : nat, forall rnd t0 evs,
      length (messages (ui (run evs (boot rnd t0)))) <= cap.
Proof.
  intros [cap H]. specialize (H "k3x" 5%N (exchanges (S cap))).
  rewrite exchanges_grow in H by reflexivity. simpl in H. lia.
Qed.

(** With a cap of 20 turns, 13 exchanges leave 27 turns on the page. *)
Example twenty_is_exceeded :
  length (messages (ui (run (exchanges 13) (boot "k3x" 5)))) = 27.
Proof. reflexivity. Qed.

(** C2, as the page has it.  The transcript has no cap and appending never
    evicts: along every run in which no clear of the conversation takes
    effect, the turns held before stay, in order, at the front of the
    transcript, so its length never goes down; each event adds the turns of
    [turnsAdded] at the end. *)
Theorem transcript_never_evicts evs w :
  keepsConversation evs w ->
  messages (ui w) `prefix_of` messages (ui (run evs w)) /\
  length (messages (ui w)) <= length (messages (ui (run evs w))) /\
  forall e, clearsConversation e w = false ->
    messages (ui (step e w)) = messages (ui w) ++ turnsAdded e w.
Proof.
  intros H. pose proof (run_prefix evs w H) as Hp.
  split; [exact Hp|]. split; [by apply prefix_length|].
  intros e He. by rewrite step_messages, He.
Qed.

(** Thirteen exchanges: the welcome turn is still the first of 27. *)
Lemma transcript_never_evicts_witness :
  messages (ui (boot "k3x" 5)) `prefix_of`
    messages (ui (run (exchanges 13) (boot "k3x" 5))) /\
  length (messages (ui (run (exchanges 13) (boot "k3x" 5)))) = 27.
Proof.
  split; [|reflexivity].
  apply (transcript_never_evicts (exchanges 13) (boot "k3x" 5)).
  simpl. repeat split.
Defined.

(** *** The session identifier *)

Lemma step_sessionId e w :
  completesQuery e w = false -> sessionId (ui (step e w)) = sessionId (ui w).
Proof.
  destruct e as [text|now|k now o|fs|k now o|ty|k o|]; simpl; try reflexivity.
  - intros _. unfold sendMessage_begin. by destruct (sendBlocked (ui w)).
  - by destruct (inflight w !! k) as [[sent|f rest sid|ty]|].
  - intros _. unfold handleFileUpload_begin.
    destruct (uploadNext_frame (sessionId (ui w)) fs (ui w)) as (_ & Hs & _).
    by destruct (uploadNext (sessionId (ui w)) fs (ui w)) as [[st eff] p].
  - intros _. destruct (inflight w !! k) as [[sent|f rest sid|ty]|]; try reflexivity.
    destruct (handleFileUpload_resume_frame f rest sid now o (ui w)) as (_ & Hs & _).
    by destruct (handleFileUpload_resume f rest sid now o (ui w)) as [[st eff] p].
  - intros _. pose proof (clearMemory_begin_state ty (ui w)) as H.
    destruct (clearMemory_begin ty (ui w)) as [[st eff] p]. simpl in *. by subst.
  - intros _. destruct (inflight w !! k) as [[sent|f rest sid|ty]|]; try reflexivity.
    destruct (clearMemory_resume_frame ty o (ui w)) as (_ & Hs).
    by destruct (clearMemory_resume ty o (ui w)) as [st eff].
Qed.

Lemma run_sessionId evs w :
  noQueryCompletes evs w -> sessionId (ui (run evs w)) = sessionId (ui w).
Proof.
  revert w. induction evs as [|e evs IH]; intros w; simpl; [reflexivity|].
  intros [He Hrest]. by rewrite (IH _ Hrest), step_sessionId.
Qed.

Lemma step_send_posts now w :
  sendBlocked (ui w) = false ->
  trace (step (SendClicked now) w) =
  trace w ++ [Fetch (PostQuery (inputMessage (ui w)) (sessionId (ui w)))].
Proof. intros Hb. simpl. unfold sendMessage_begin. by rewrite Hb. Qed.

Lemma step_adopts k sent now d sid w :
  inflight w !! k = Some (PQuery sent) ->
  success d = true -> session_id d = Some sid -> sid <> "" -> Some sid <> sent ->
  sessionId (ui (step (QueryReturned k now (Replied d)) w)) = Some sid.
Proof.
  intros Hk Hok Hsid Hne Hdiff. simpl. rewrite Hk.
  pose proof (sendMessage_resume_sessionId sent now (Replied d) (ui w)) as Hs.
  destruct (sendMessage_resume sent now (Replied d) (ui w)) as [st eff].
  simpl in *. rewrite Hs, Hok, Hsid. simpl.
  apply truthy_nonempty in Hne. rewrite Hne. simpl.
  by rewrite bool_decide_eq_true_2.
Qed.

Lemma step_upload_posts f rest w :
  consistent w ->
  trace (step (FilesChosen (f :: rest)) w) =
  trace w ++ [Fetch (PostUpload f (sessionId (ui w)))].
Proof. intros Hw. simpl. by rewrite (has_session _ Hw). Qed.

Lemma step_clear_posts ty sid w :
  consistent w -> sessionId (ui w) = Some sid ->
  trace (step (ClearClicked ty) w) = trace w ++ [Fetch (PostClear sid ty)].
Proof.
  intros Hw Hs. pose proof (has_session _ Hw) as Ht. rewrite Hs in Ht.
  simpl in *. unfold clearMemory_begin. by rewrite Hs, Ht.
Qed.

(** *** Uploads in flight *)

Lemma uploadNext_pending sid fs st f rest sid' :
  (uploadNext sid fs st).2 = Some (PUpload f rest sid') -> sid' = sid.
Proof. destruct fs; simpl; congruence. Qed.

Lemma uploadsHoldSession_step e w :
  consistent w -> uploadsHoldSession w -> uploadsHoldSession (step e w).
Proof.
  intros Hw Hu i f rest sid.
  assert (forall l k,
            l = inflight w \/ l = delete k (inflight w) ->
            l !! i = Some (PUpload f rest sid) -> truthyOpt sid = true) as Hold.
  { intros l k [->| ->] H; [by eapply Hu|].
    apply lookup_delete_from in H as [j Hj]. by eapply Hu. }
  destruct e as [text|now|k now o|fs|k now o|ty|k o|]; simpl.
  - apply (Hold _ 0). by left.
  - unfold sendMessage_begin. destruct (sendBlocked (ui w)); simpl.
    + apply (Hold _ 0). by left.
    + intros H. apply (lookup_suspend (Some _)) in H as [H|H]; [|discriminate].
      apply (Hold _ 0 (or_introl eq_refl) H).
  - destruct (inflight w !! k) as [[sent|f' rest' sid'|ty]|] eqn:Hk;
      try (apply (Hold _ 0); by left).
    destruct (sendMessage_resume sent now o (ui w)) as [st eff]. simpl.
    apply (Hold _ k). by right.
  - unfold handleFileUpload_begin.
    destruct (uploadNext (sessionId (ui w)) fs (ui w)) as [[st eff] p] eqn:Hn.
    simpl. intros H. apply lookup_suspend in H as [H| ->].
    + apply (Hold _ 0 (or_introl eq_refl) H).
    + pose proof (uploadNext_pending (sessionId (ui w)) fs (ui w) f rest sid) as E.
      rewrite Hn in E. rewrite (E eq_refl). apply (has_session _ Hw).
  - destruct (inflight w !! k) as [[sent|f' rest' sid'|ty]|] eqn:Hk;
      try (apply (Hold _ 0); by left).
    unfold handleFileUpload_resume.
    match goal with |- context [uploadNext sid' rest' ?s] =>
      pose proof (uploadNext_pending sid' rest' s f rest sid) as E;
      destruct (uploadNext sid' rest' s) as [[st eff] p] end.
    simpl in *. intros H. apply lookup_suspend in H as [H| ->].
    + apply (Hold _ k (or_intror eq_refl) H).
    + rewrite (E eq_refl). by eapply Hu.
  - unfold clearMemory_begin.
    destruct (sessionId (ui w)) as [s|]; [destruct (truthy s)|]; simpl;
      try (apply (Hold _ 0); by left).
    intros H. apply (lookup_suspend (Some _)) in H as [H|H]; [|discriminate].
    apply (Hold _ 0 (or_introl eq_refl) H).
  - destruct (inflight w !! k) as [[sent|f' rest' sid'|ty]|] eqn:Hk;
      try (apply (Hold _ 0); by left).
    destruct (clearMemory_resume ty o (ui w)) as [st eff]. simpl.
    apply (Hold _ k). by right.
  - apply (Hold _ 0). by left.
Qed.

Lemma uploadsHoldSession_reachable rnd now evs :
  uploadsHoldSession (run evs (boot rnd now)).
Proof.
  assert (forall w, consistent w -> uploadsHoldSession w ->
                    uploadsHoldSession (run evs w)) as H.
  { induction evs as [|e evs IH]; intros w Hw Hu; simpl; [exact Hu|].
    apply IH; [by apply consistent_step | by apply uploadsHoldSession_step]. }
  apply H; [apply consistent_boot|].
  intros k f rest sid Hk. simpl in Hk. by rewrite lookup_nil in Hk.
Qed.

(** The loop goes on with the identifier its closure holds. *)
Lemma step_upload_next k f g rest sid now o w :
  inflight w !! k = Some (PUpload f (g :: rest) sid) -> truthyOpt sid = true ->
  trace (step (UploadReturned k now o) w) = trace w ++ [Fetch (PostUpload g sid)].
Proof. intros Hk Hs. simpl. rewrite Hk. simpl. by rewrite Hs. Qed.




(** *** clearMemory *)

Lemma clearMemory_begin_null ty st :
  sessionId st = None -> clearMemory_begin ty st = (st, [], None).
Proof. unfold clearMemory_begin. by intros ->. Qed.

Lemma step_clear_returned k ty o w :
  inflight w !! k = Some (PClear ty) ->
  messages (ui (step (ClearReturned k o) w)) =
  messages (clearMemory_resume ty o (ui w)).1.
Proof.
  intros Hk. simpl. rewrite Hk.
  by destruct (clearMemory_resume ty o (ui w)) as [st eff].
Qed.

(** C7. In every world the page reaches, [clearMemory('conversation')] with
    a session identifier that is not null posts the clear request and waits;
    when the reply reports success the transcript is empty in the very state
    the reply leaves behind.  With a null identifier the handler returns at
    once: nothing is sent, nothing changes. *)
Theorem clear_conversation_empties rnd t0 evs :
  let w := run evs (boot rnd t0) in
  (forall sid, sessionId (ui w) = Some sid ->
     step (ClearClicked conversation) w =
     {| ui := ui w; inflight := inflight w ++ [PClear conversation];
        trace := trace w ++ [Fetch (PostClear sid conversation)] |}) /\
  (forall k d, inflight w !! k = Some (PClear conversation) ->
     ack_success d = true ->
     messages (ui (step (ClearReturned k (Replied d)) w)) = []) /\
  (forall st d, ack_success d = true ->
     messages (clearMemory_resume conversation (Replied d) st).1 = []) /\
  (forall ty st, sessionId st = None -> clearMemory_begin ty st = (st, [], None)) /\
  (forall ty w0, sessionId (ui w0) = None -> step (ClearClicked ty) w0 = w0).
Proof.
  intros w. pose proof (consistent_reachable rnd t0 evs) as Hw. fold w in Hw.
  split; [|split; [|split; [|split]]].
  - intros sid Hsid. pose proof (has_session _ Hw) as Ht. simpl.
    unfold clearMemory_begin. rewrite Hsid in *. simpl in Ht. by rewrite Ht.
  - intros k d Hk Hok. rewrite (step_clear_returned _ _ _ _ Hk).
    rewrite clearMemory_resume_messages. simpl. by rewrite Hok.
  - intros st d Hok. rewrite clearMemory_resume_messages. simpl. by rewrite Hok.
  - apply clearMemory_begin_null.
  - intros ty [st l tr] Hs. simpl in *. rewrite (clearMemory_begin_null _ _ Hs).
    unfold start. simpl. by rewrite app_nil_r.
Qed.

(** After one exchange the chat is cleared; before mounting nothing is sent. *)
Lemma clear_conversation_empties_witness :
  let ok := {| ack_success := true; ack_message := "Conversation memory cleared" |} in
  let w := run (exchange ++ [ClearClicked conversation]) (boot "k3x" 5) in
  length (messages (ui w)) = 3 /\
  messages (ui (step (ClearReturned 0 (Replied ok)) w)) = [] /\
  clearMemory_begin conversation initial = (initial, [], None).
Proof.
  intros ok w.
  destruct (clear_conversation_empties "k3x" 5 (exchange ++ [ClearClicked conversation]))
    as (_ & Hdone & _ & Hnull & _).
  split; [reflexivity|]. split.
  - apply (Hdone 0 ok); reflexivity.
  - apply Hnull. reflexivity.
Defined.



End ChatFacts.

(** ** The compare page *)
Module CompareFacts.
Import JS Async Compare AsyncFacts.

Section Page.

Context {OttoScore : Type} (ticker : OttoScore -> string).
Context (toUpperCase : string -> string).

Local Abbreviation World := (World OttoScore).
Local Abbreviation State := (State OttoScore).
Local Abbreviation Event := (Event OttoScore).
Local Abbreviation boot := (boot OttoScore).

Implicit Types (w : World) (st : State) (e : Event) (evs : list Event).

Lemma alreadyAdded_elem (stocks : list OttoScore) typed :
  alreadyAdded ticker toUpperCase stocks typed = true <-> toUpperCase typed ∈ (ticker <$> stocks).
Proof.
  unfold alreadyAdded. rewrite existsb_exists, list_elem_of_fmap.
  split.
  - intros (x & Hx & Heq). apply String.eqb_eq in Heq.
    exists x. split; [done | by apply list_elem_of_In].
  - intros (x & Heq & Hx). exists x.
    split; [by apply list_elem_of_In | by apply String.eqb_eq].
Qed.

Lemma alreadyAdded_not_elem (stocks : list OttoScore) typed :
  alreadyAdded ticker toUpperCase stocks typed = false <-> toUpperCase typed ∉ (ticker <$> stocks).
Proof.
  rewrite <- alreadyAdded_elem. destruct (alreadyAdded ticker toUpperCase stocks typed); split;
    congruence.
Qed.

(** The three early returns of [handleAddStock]. *)
Lemma handleAddStock_blank st :
  truthy (trim (searchTicker st)) = false -> handleAddStock_begin ticker toUpperCase st = (st, [], None).
Proof. unfold handleAddStock_begin. by intros ->. Qed.

Lemma handleAddStock_full st :
  3 <= length (compareStocks st) -> handleAddStock_begin ticker toUpperCase st = (st, [], None).
Proof.
  intros H. unfold handleAddStock_begin.
  apply Nat.leb_le in H. rewrite H. by rewrite orb_true_r.
Qed.

Lemma handleAddStock_present st :
  truthy (trim (searchTicker st)) = true -> length (compareStocks st) < 3 ->
  toUpperCase (searchTicker st) ∈ (ticker <$> compareStocks st) ->
  handleAddStock_begin ticker toUpperCase st =
  (st, [Alert "Stock already added to comparison"], None).
Proof.
  intros Ht Hlen Hin. unfold handleAddStock_begin. rewrite Ht.
  destruct (Nat.leb_spec 3 (length (compareStocks st))) as [Hge|_]; [lia|].
  apply alreadyAdded_elem in Hin. rewrite Hin. reflexivity.
Qed.

(** What a [handleAddStock] that goes through has checked. *)
Lemma handleAddStock_begin_suspends st st' eff stocks typed :
  handleAddStock_begin ticker toUpperCase st = (st', eff, Some (PAdd stocks typed)) ->
  compareStocks st' = compareStocks st /\ stocks = compareStocks st /\
  length stocks < 3 /\ toUpperCase typed ∉ (ticker <$> stocks).
Proof.
  unfold handleAddStock_begin.
  destruct (negb (truthy (trim (searchTicker st)))); [discriminate|].
  destruct (Nat.leb_spec 3 (length (compareStocks st))) as [|Hlt]; [discriminate|].
  cbn [orb].
  destruct (alreadyAdded ticker toUpperCase (compareStocks st) (searchTicker st)) eqn:Ha;
    [discriminate|].
  intros H. injection H as <- _ <- <-. repeat split; [lia|].
  by apply alreadyAdded_not_elem.
Qed.

Lemma handleAddStock_begin_stocks st :
  compareStocks (handleAddStock_begin ticker toUpperCase st).1.1 = compareStocks st.
Proof. unfold handleAddStock_begin. by repeat case_match. Qed.

Lemma removeStock_sublist t st :
  compareStocks (removeStock ticker t st) `sublist_of` compareStocks st.
Proof. apply sublist_filter. Qed.

(** *** The machine *)

Lemma handleAddStock_resume_stocks stocks typed (o : Outcome OttoScore) st :
  compareStocks (handleAddStock_resume toUpperCase stocks typed o st).1 =
  match o with
  | Replied stock => stocks ++ [stock]
  | Threw _ => compareStocks st
  end.
Proof. by destruct o. Qed.

Lemma addQuickCompare_resume_stocks (o : Outcome (list OttoScore)) st :
  compareStocks (addQuickCompare_resume o st).1 =
  match o with
  | Replied stocks => stocks
  | Threw _ => compareStocks st
  end.
Proof. by destruct o. Qed.

(** The handlers in flight after a step were in flight before it, or are
    the one [handleAddStock] the step has just suspended. *)
Lemma step_inflight e w i stocks typed :
  inflight (step ticker toUpperCase e w) !! i = Some (PAdd stocks typed) ->
  (exists j, inflight w !! j = Some (PAdd stocks typed)) \/
  (e = AddSubmitted /\ stocks = compareStocks (ui w) /\
   length stocks < 3 /\ toUpperCase typed ∉ (ticker <$> stocks)).
Proof.
  destruct e as [text| |k o|t| |k o]; simpl.
  - eauto.
  - destruct (handleAddStock_begin ticker toUpperCase (ui w)) as [[st' eff] p] eqn:Hb. simpl.
    intros H. apply lookup_suspend in H as [H| ->]; [eauto|].
    right. apply handleAddStock_begin_suspends in Hb as (_ & -> & Hlen & Hnot).
    auto.
  - destruct (inflight w !! k) as [[stocks' typed'|]|] eqn:Hk; eauto.
    unfold finish. destruct (handleAddStock_resume toUpperCase stocks' typed' o (ui w)). simpl.
    intros H. left. eapply lookup_delete_from, H.
  - eauto.
  - intros H. apply (lookup_suspend (Some PQuick)) in H as [H|H];
      [eauto | discriminate].
  - destruct (inflight w !! k) as [[stocks' typed'|]|] eqn:Hk; eauto.
    unfold finish. destruct (addQuickCompare_resume o (ui w)). simpl.
    intros H. left. eapply lookup_delete_from, H.
Qed.

Lemma bounded_step e w : quickWithin e -> bounded w -> bounded (step ticker toUpperCase e w).
Proof.
  intros He [Hlen Hroom]. split.
  - destruct e as [text| |k o|t| |k o]; simpl; try exact Hlen.
    + pose proof (handleAddStock_begin_stocks (ui w)) as Hs.
      destruct (handleAddStock_begin ticker toUpperCase (ui w)) as [[st' eff] p]. simpl in *.
      by rewrite Hs.
    + destruct (inflight w !! k) as [[stocks typed|]|] eqn:Hk; try exact Hlen.
      pose proof (handleAddStock_resume_stocks stocks typed o (ui w)) as Hs.
      destruct (handleAddStock_resume toUpperCase stocks typed o (ui w)) as [st' eff].
      simpl in *. rewrite Hs. destruct o as [ex|stock]; [exact Hlen|].
      rewrite length_app. simpl. specialize (Hroom _ _ _ Hk). lia.
    + etrans; [apply length_filter | exact Hlen].
    + destruct (inflight w !! k) as [[stocks typed|]|] eqn:Hk; try exact Hlen.
      pose proof (addQuickCompare_resume_stocks o (ui w)) as Hs.
      destruct (addQuickCompare_resume o (ui w)) as [st' eff].
      simpl in *. rewrite Hs. destruct o as [ex|stocks]; [exact Hlen | exact He].
  - intros i stocks typed Hi.
    apply step_inflight in Hi as [[j Hj]|(_ & _ & Hlt & _)]; [eauto | exact Hlt].
Qed.

Lemma NoDup_snoc_fmap (stocks : list OttoScore) stock :
  NoDup (ticker <$> stocks) -> ticker stock ∉ (ticker <$> stocks) ->
  NoDup (ticker <$> stocks ++ [stock]).
Proof.
  intros Hnd Hnot. rewrite fmap_app. apply NoDup_app. split; [exact Hnd|].
  split; [|apply NoDup_singleton].
  intros x Hx Hx'. apply list_elem_of_singleton in Hx'. by subst.
Qed.

Lemma distinct_step e w :
  answersAsAssumed ticker toUpperCase e w -> distinct ticker toUpperCase w -> distinct ticker toUpperCase (step ticker toUpperCase e w).
Proof.
  intros He [Hnd Hnot]. split.
  - destruct e as [text| |k o|t| |k o]; simpl; try exact Hnd.
    + pose proof (handleAddStock_begin_stocks (ui w)) as Hs.
      destruct (handleAddStock_begin ticker toUpperCase (ui w)) as [[st' eff] p]. simpl in *.
      by rewrite Hs.
    + simpl in He.
      destruct (inflight w !! k) as [[stocks typed|]|] eqn:Hk; try exact Hnd.
      pose proof (handleAddStock_resume_stocks stocks typed o (ui w)) as Hs.
      destruct (handleAddStock_resume toUpperCase stocks typed o (ui w)) as [st' eff].
      simpl in *. rewrite Hs. destruct o as [ex|stock]; [exact Hnd|].
      destruct (Hnot _ _ _ Hk) as [Hnd' Hfresh].
      apply NoDup_snoc_fmap; [exact Hnd' | by rewrite He].
    + eapply sublist_NoDup; [exact Hnd|]. apply fmap_sublist, sublist_filter.
    + destruct (inflight w !! k) as [[stocks typed|]|] eqn:Hk; try exact Hnd.
      pose proof (addQuickCompare_resume_stocks o (ui w)) as Hs.
      destruct (addQuickCompare_resume o (ui w)) as [st' eff].
      simpl in *. rewrite Hs. destruct o as [ex|stocks]; [exact Hnd | exact He].
  - intros i stocks typed Hi.
    apply step_inflight in Hi as [[j Hj]|(_ & -> & _ & Hfresh)]; [eauto|].
    split; [exact Hnd | exact Hfresh].
Qed.

Lemma bounded_run evs w :
  Forall quickWithin evs -> bounded w -> bounded (run ticker toUpperCase evs w).
Proof.
  intros H. revert w. induction H as [|e evs He _ IH]; intros w Hw; simpl;
    [exact Hw|]. apply IH, bounded_step; assumption.
Qed.

Lemma distinct_run evs w :
  apiAsAssumed ticker toUpperCase evs w -> distinct ticker toUpperCase w -> distinct ticker toUpperCase (run ticker toUpperCase evs w).
Proof.
  revert w. induction evs as [|e evs IH]; intros w H Hw; simpl; [exact Hw|].
  destruct H as [He Hrest]. apply IH; [exact Hrest|]. by apply distinct_step.
Qed.

Lemma bounded_boot : bounded boot.
Proof. split; simpl; [lia|]. intros k stocks typed H. by rewrite lookup_nil in H. Qed.

Lemma distinct_boot : distinct ticker toUpperCase boot.
Proof.
  split; simpl; [constructor|]. intros k stocks typed H. by rewrite lookup_nil in H.
Qed.

(** C9. When every answer of [compareStocks] to the quick comparison holds
    at most three stocks, the list under comparison never holds more than
    three stocks; when moreover these stocks have distinct tickers and
    [getScore(t)] answers with the stock whose ticker is [t] in upper case,
    it never holds two stocks of the same ticker, however the replies
    interleave with the clicks.  [handleAddStock] returns with the state as
    it was, and awaits nothing, when the list already holds three stocks,
    when the input is blank, and when the ticker typed, in upper case, is
    already in the list; [removeStock] leaves a sublist. *)
Theorem compare_list_small_and_distinct :
  (forall evs, Forall quickWithin evs ->
     length (compareStocks (ui (run ticker toUpperCase evs boot))) <= 3) /\
  (forall evs, apiAsAssumed ticker toUpperCase evs boot ->
     NoDup (ticker <$> compareStocks (ui (run ticker toUpperCase evs boot)))) /\
  (forall st, 3 <= length (compareStocks st) ->
     handleAddStock_begin ticker toUpperCase st = (st, [], None)) /\
  (forall st, truthy (trim (searchTicker st)) = false ->
     handleAddStock_begin ticker toUpperCase st = (st, [], None)) /\
  (forall st, toUpperCase (searchTicker st) ∈ (ticker <$> compareStocks st) ->
     (handleAddStock_begin ticker toUpperCase st).1.1 = st /\
     (handleAddStock_begin ticker toUpperCase st).2 = None) /\
  (forall t st, compareStocks (removeStock ticker t st) `sublist_of` compareStocks st).
Proof.
  split; [|split; [|split; [|split; [|split]]]].
  - intros evs H. by destruct (bounded_run evs boot H bounded_boot).
  - intros evs H. by destruct (distinct_run evs boot H distinct_boot).
  - apply handleAddStock_full.
  - apply handleAddStock_blank.
  - intros st Hin.
    destruct (truthy (trim (searchTicker st))) eqn:Ht;
      [|by rewrite handleAddStock_blank].
    destruct (le_lt_dec 3 (length (compareStocks st))) as [Hge|Hlt];
      [by rewrite handleAddStock_full|].
    by rewrite handleAddStock_present.
  - apply removeStock_sublist.
Qed.

End Page.

(** A stock is a ticker with its score.  AAPL is added, typed again and
    refused; MSFT is removed while never added. *)
Lemma compare_list_small_and_distinct_witness :
  let evs : list (Event (string * nat)) :=
    [TickerTyped "aapl"; AddSubmitted; ScoreReturned 0 (Replied ("AAPL", 81));
     TickerTyped "AAPL"; AddSubmitted; RemoveClicked "MSFT"] in
  let w := run fst toUpperCase evs (boot (string * nat)) in
  compareStocks (ui w) = [("AAPL", 81)] /\
  length (compareStocks (ui w)) <= 3 /\
  NoDup (fst <$> compareStocks (ui w)) /\
  trace w = [GetScore "aapl"; Alert "Stock already added to comparison"].
Proof.
  intros evs w.
  destruct (compare_list_small_and_distinct (OttoScore := string * nat) fst toUpperCase)
    as (Hlen & Hnd & _).
  split; [reflexivity|]. split; [|split; [|reflexivity]].
  - apply (Hlen evs). subst evs. repeat constructor.
  - apply (Hnd evs). subst evs. simpl. repeat split.
Defined.

(** The quick comparison stores the answer of [compareStocks] as it comes:
    without an assumption on that answer the list is neither small nor free
    of repeated tickers.  No score is asked for here, so what is assumed of
    [getScore] holds. *)
Lemma quick_answer_is_stored_as_it_comes :
  let answer := [("AAPL", 81); ("MSFT", 77); ("JNJ", 90); ("AAPL", 81)] in
  let evs : list (Event (string * nat)) :=
    [QuickClicked; QuickReturned 0 (Replied answer)] in
  let w := run fst toUpperCase evs (boot (string * nat)) in
  trace w = [CompareStocks ["AAPL"; "MSFT"; "JNJ"]] /\
  compareStocks (ui w) = answer /\
  ~ length (compareStocks (ui w)) <= 3 /\
  ~ NoDup (fst <$> compareStocks (ui w)).
Proof.
  intros answer evs w. split; [reflexivity|]. split; [reflexivity|]. split.
  - simpl. lia.
  - simpl. intros H. apply NoDup_cons in H as [H _]. apply H.
    rewrite !elem_of_cons. auto.
Qed.

End CompareFacts.

(** ** The calendar page *)
Module CalendarFacts.
Import JS Calendar JSFacts.

Lemma filter_agrees {A} (f : A -> bool) (P : A -> Prop) `{!forall x, Decision (P x)}
    (l : list A) :
  (forall x, f x = true <-> P x) -> List.filter f l = filter P l.
Proof.
  intros Hf. induction l as [|x l IH]; [reflexivity|].
  cbn [List.filter]. rewrite filter_cons, IH.
  destruct (decide (P x)) as [Hx|Hx].
  - apply Hf in Hx. by rewrite Hx.
  - destruct (f x) eqn:Hfx; [|reflexivity]. apply Hf in Hfx. contradiction.
Qed.

Section Page.

Context {CalendarStock : Type} (ticker companyName : CalendarStock -> string).
Context (calendarStocks : list CalendarStock).
Context (toLowerCase : string -> string).

Local Abbreviation State := (State CalendarStock).
Local Abbreviation handleSearch := (handleSearch ticker companyName calendarStocks toLowerCase).
Local Abbreviation wanted := (wanted ticker companyName toLowerCase).

Lemma matchesQuery_wanted query stock :
  matchesQuery ticker companyName toLowerCase query stock = true <-> wanted query stock.
Proof.
  unfold matchesQuery, Calendar.wanted, containsIgnoringCase.
  by rewrite orb_true_iff, !includes_occurs.
Qed.


End Page.


(** A query of a no-break space and a space is blank: nothing is listed,
    also with a company name that holds a space. *)
Example handleSearch_no_break_space :
  let table := [("JCI", "Johnson Controls")] in
  let st := {| selectedStocks := []; searchTicker := utf8 160 +:+ " ";
               searchResults := table |} in
  blank (searchTicker st) /\
  searchResults (handleSearch fst snd table toLowerCase st) = [].
Proof.
  split; [|reflexivity]. exists [160; 32]%N. split; [|reflexivity].
  repeat constructor; apply list_elem_of_In; simpl; tauto.
Qed.

End CalendarFacts.

(** ** The sandbox *)
Module SandboxFacts.
Import Sandbox.

Lemma flat_map_violation (p : Policy) (l : list Node) (a : Node) :
  In a l -> violations p a <> [] -> List.flat_map (violations p) l <> [].
Proof.
  induction l as [|x l IH]; simpl; [tauto|].
  intros [->|Hin] Ha Hnil; apply app_eq_nil in Hnil as [Hx Hl]; [tauto|].
  by apply IH.
Qed.

(** An import of a deny-listed module, wherever it stands in the submission,
    is a forbidden construct. *)
Lemma import_violation (p : Policy) (m : string) (code : Node) :
  listed m (denyList p) = true -> importsModule m code -> violations p code <> [].
Proof.
  intros Hm H. induction H as [|o a _ IH|f args _ IH|f args a Hin _ IH|body a Hin _ IH];
    simpl.
  - by rewrite Hm.
  - intros Hnil. by apply app_eq_nil in Hnil as [Hnil _].
  - intros Hnil. by apply app_eq_nil in Hnil as [Hnil _].
  - intros Hnil. apply app_eq_nil in Hnil as [_ Hnil].
    by apply (flat_map_violation p args a).
  - by apply (flat_map_violation p body a).
Qed.

(** C1. A submission that contains an import of a deny-listed module is
    refused by the static admission check: the request resolves to
    [Denied], and the host is left as it was, so no execution context was
    allocated (the counter did not move) and the submission was not run. *)
Theorem denied_import_never_runs
    (isolatedRun : Limits -> Node -> Ran) (p : Policy) (lim : Limits)
    (code : Node) (h : Host) (m : string) :
  listed m (denyList p) = true -> importsModule m code ->
  exists reason,
    staticCheck p code = Some reason /\
    execute isolatedRun p lim code h = (Denied reason, h) /\
    allocated (execute isolatedRun p lim code h).2 = allocated h /\
    executed (execute isolatedRun p lim code h).2 = executed h.
Proof.
  intros Hm Hc. pose proof (import_violation p m code Hm Hc) as Hv.
  unfold execute, staticCheck.
  destruct (violations p code) as [|reason rest]; [done|].
  exists reason. simpl. auto.
Qed.

(** The scenario of the specification, [import os; os.system("echo hi")],
    under an interpreter that would print if it were reached. *)
Lemma denied_import_never_runs_witness :
  let policy := {| denyList := ["os"; "subprocess"; "socket"; "eval"; "open"];
                   allowList := ["math"; "random"] |} in
  let limits := {| maxWallClock := 2000; maxMemory := 64; outputCap := 1024 |} in
  let code := Block [Import "os";
                     Call (Attribute (Name "os") "system") [Literal "echo hi"]] in
  let h := {| allocated := 0; executed := [] |} in
  execute (fun _ _ => Finished "hi") policy limits code h =
    (Denied "import of 'os' is not allowed", h).
Proof.
  intros policy limits code h.
  destruct (denied_import_never_runs (fun _ _ => Finished "hi") policy limits code h "os")
    as (reason & Hcheck & Hexec & _).
  - reflexivity.
  - apply (im_body "os" _ (Import "os")); [by left | constructor].
  - rewrite Hexec. injection Hcheck as <-. reflexivity.
Defined.

(** An admitted submission does get a context and is run. *)
Example admitted_runs :
  let policy := {| denyList := ["os"]; allowList := ["math"] |} in
  let limits := {| maxWallClock := 2000; maxMemory := 64; outputCap := 2 |} in
  let code := Block [Import "math"; Call (Name "print") [Literal "hello"]] in
  execute (fun _ _ => Finished "hello") policy limits code
          {| allocated := 0; executed := [] |} =
    (Allowed "he", {| allocated := 1; executed := [code] |}).
Proof. reflexivity. Qed.

End SandboxFacts.

(** ** Rendering a message *)
Module FormatFacts.
Import JS Format JSFacts.

Example format_bold_and_code :
  formatMessage "a **b** and `c`" =
  "a <strong>b</strong> and " +:+ codeOpen +:+ "c</code>".
Proof. reflexivity. Qed.

Example format_bold_needs_one_line :
  formatMessage ("**a" +:+ String lineFeed "b**") = "<em></em>a<br>b<em></em>".
Proof. reflexivity. Qed.

(** U+2028 ends a line as well, and is no line feed. *)
Example format_bold_line_separator :
  formatMessage ("**a" +:+ lineSeparator +:+ "b**") =
  "<em></em>a" +:+ lineSeparator +:+ "b<em></em>".
Proof. reflexivity. Qed.

Example format_triple_star : formatMessage "***a**" = "<strong>*a</strong>".
Proof. reflexivity. Qed.

Example format_block_spans_lines :
  formatMessage ("```x" +:+ String lineFeed "y```") =
  preOpen +:+ "x<br>y</code></pre>".
Proof. reflexivity. Qed.

(** *** Counting characters *)

Lemma count_append c a b : count c (a +:+ b) = count c a + count c b.
Proof.
  induction a as [|x a IH]; [reflexivity|].
  rewrite append_cons. cbn [count]. rewrite IH. lia.
Qed.

Lemma append_empty_r s : s +:+ "" = s.
Proof. induction s as [|x s IH]; [reflexivity|]. by rewrite append_cons, IH. Qed.

Lemma append_assoc a b c : (a +:+ b) +:+ c = a +:+ (b +:+ c).
Proof. induction a as [|x a IH]; [reflexivity|]. by rewrite !append_cons, IH. Qed.

Lemma startsWith_count c s d : startsWith s d = true -> count c d <= count c s.
Proof.
  intros H. apply startsWith_spec in H as [rest ->]. rewrite count_append. lia.
Qed.

Lemma startsWith_self d rest : startsWith (d +:+ rest) d = true.
Proof. apply startsWith_spec. by exists rest. Qed.

Lemma dropChars_append a b : dropChars (String.length a) (a +:+ b) = b.
Proof. induction a as [|x a IH]; [by destruct b|]. rewrite append_cons. apply IH. Qed.

Lemma dropChars_zero s : dropChars 0 s = s.
Proof. by destruct s. Qed.

(** *** Line terminators *)

Lemma startsTerminator_cases s :
  startsTerminator s = true ->
  (exists r, s = String lineFeed r) \/ (exists r, s = String carriageReturn r) \/
  (exists r, s = lineSeparator +:+ r) \/ (exists r, s = paragraphSeparator +:+ r).
Proof.
  destruct s as [|a r]; [discriminate|]. cbn [startsTerminator].
  rewrite !orb_true_iff, !N.eqb_eq. intros [[Ha|Ha]|H].
  - left. apply ascii_of_code in Ha. subst a. by exists r.
  - right. left. apply ascii_of_code in Ha. subst a. by exists r.
  - destruct r as [|b [|c r]]; try discriminate.
    rewrite !andb_true_iff, orb_true_iff, !N.eqb_eq in H.
    destruct H as [[Ha Hb] Hc]. apply ascii_of_code in Ha, Hb. subst a b.
    right. right. destruct Hc as [Hc|Hc]; apply ascii_of_code in Hc; subst c;
      [left | right]; by exists r.
Qed.

Lemma holdsTerminator_true s :
  holdsTerminator s = true ->
  0 < count lineFeed s \/ 0 < count carriageReturn s \/
  occurs lineSeparator s \/ occurs paragraphSeparator s.
Proof.
  induction s as [|a r IH]; [discriminate|]. cbn [holdsTerminator].
  rewrite orb_true_iff. intros [H|H].
  - apply startsTerminator_cases in H as [[x E]|[[x E]|[[x E]|[x E]]]].
    + left. injection E as -> _. cbn [count]. rewrite Ascii.eqb_refl. lia.
    + right. left. injection E as -> _. cbn [count]. rewrite Ascii.eqb_refl. lia.
    + right. right. left. by exists "", x.
    + right. right. right. by exists "", x.
  - destruct (IH H) as [Hc|[Hc|[(b & x & ->)|(b & x & ->)]]].
    + left. cbn [count]. lia.
    + right. left. cbn [count]. lia.
    + right. right. left. by exists (String a b), x.
    + right. right. right. by exists (String a b), x.
Qed.

Lemma oneLine_fits t : oneLine t -> fits false t.
Proof.
  intros (Hl & Hr & Hs & Hp). right.
  destruct (holdsTerminator t) eqn:H; [|reflexivity].
  apply holdsTerminator_true in H as [H|[H|[H|H]]]; [lia | lia | done | done].
Qed.

(** *** One pass *)

Section Pass.

Variables (delim : string) (dotAll : bool) (pre post : string).

Local Abbreviation pass := (replaceDelimited delim dotAll pre post).

(** Too few of some character of the delimiter: no match anywhere. *)
Lemma findClose_none c s :
  count c s < count c delim -> findClose delim dotAll s = None.
Proof.
  induction s as [|a r IH]; intros Hc.
  - cbn [findClose]. destruct (startsWith "" delim) eqn:Hs; [|reflexivity].
    apply (startsWith_count c) in Hs. lia.
  - cbn [findClose]. destruct (startsWith (String a r) delim) eqn:Hs.
    { apply (startsWith_count c) in Hs. lia. }
    cbn [count] in Hc. rewrite IH by lia.
    by destruct (dotAll || negb (startsTerminator (String a r))).
Qed.

(** What [findClose] finds is followed by the delimiter. *)
Lemma findClose_sound s group :
  findClose delim dotAll s = Some group -> exists rest, s = group +:+ delim +:+ rest.
Proof.
  revert group. induction s as [|a r IH]; intros group; cbn [findClose].
  - destruct (startsWith "" delim) eqn:Hs; [|discriminate].
    intros [= <-]. by apply startsWith_spec.
  - destruct (startsWith (String a r) delim) eqn:Hs.
    { intros [= <-]. by apply startsWith_spec. }
    destruct (dotAll || negb (startsTerminator (String a r))); [|discriminate].
    destruct (findClose delim dotAll r) as [g|]; [|discriminate].
    intros [= <-]. destruct (IH g eq_refl) as [rest ->]. by exists rest.
Qed.

Lemma pass_unchanged c s : count c s < count c delim -> pass 0 s = s.
Proof.
  induction s as [|a r IH]; intros Hc; [reflexivity|].
  cbn [replaceDelimited]. destruct (startsWith (String a r) delim) eqn:Hs.
  { apply (startsWith_count c) in Hs. lia. }
  cbn [count] in Hc. by rewrite IH by lia.
Qed.

(** An opening delimiter that is never closed is kept as it is. *)
Lemma pass_opening_alone c r :
  startsWith (String c r) delim = true ->
  findClose delim dotAll (dropChars (String.length delim) (String c r)) = None ->
  pass 0 (String c r) = String c (pass 0 r).
Proof. intros Hs Hn. cbn [replaceDelimited]. by rewrite Hs, Hn. Qed.

Lemma pass_skip a b : pass (String.length a) (a +:+ b) = pass 0 b.
Proof.
  induction a as [|x a IH]; [by destruct b|].
  rewrite append_cons. cbn [String.length replaceDelimited]. apply IH.
Qed.

End Pass.

Section Match.

Variables (h : ascii) (d' : string) (dotAll : bool) (pre post : string).

Local Abbreviation delim := (String h d').
Local Abbreviation pass := (replaceDelimited delim dotAll pre post).

(** A pass keeps the characters that are neither in the delimiter nor in
    what it writes. *)
Lemma pass_count c :
  count c delim = 0 -> count c pre = 0 -> count c post = 0 ->
  forall s skip, count c (pass skip s) = count c (dropChars skip s).
Proof.
  intros Hd Hpre Hpost. induction s as [|a r IH]; intros skip; [by destruct skip|].
  cbn [replaceDelimited]. destruct skip as [|k]; [|apply IH].
  rewrite dropChars_zero.
  assert (count c (String a (pass 0 r)) = count c (String a r)) as Hkeep.
  { cbn [count]. by rewrite IH, dropChars_zero. }
  destruct (startsWith (String a r) delim) eqn:Hs; [|exact Hkeep].
  destruct (findClose delim dotAll (dropChars (String.length delim) (String a r)))
    as [group|] eqn:Hf; [|exact Hkeep].
  apply startsWith_spec in Hs as [s1 Hs]. rewrite Hs, dropChars_append in Hf.
  apply findClose_sound in Hf as [rest ->].
  rewrite !count_append, Hpre, Hpost, IH.
  assert (dropChars
            (String.length delim + String.length group + String.length delim - 1) r
          = rest) as ->.
  { rewrite append_cons in Hs. injection Hs as _ ->.
    replace (d' +:+ group +:+ delim +:+ rest)
      with ((d' +:+ group +:+ delim) +:+ rest) by by rewrite !append_assoc.
    replace (String.length delim + String.length group + String.length delim - 1)
      with (String.length (d' +:+ group +:+ delim)).
    - apply dropChars_append.
    - rewrite !length_append. cbn [String.length]. lia. }
  rewrite Hs, !count_append, Hd. lia.
Qed.

(** The delimiter starts with an ASCII character. *)
Hypothesis h_ascii : (N_of_ascii h < 128)%N.

(** Whether a line terminator starts at a character of the group does not
    depend on the delimiter behind the group. *)
Lemma startsTerminator_group a t x :
  startsTerminator (String a (t +:+ String h x)) = startsTerminator (String a t).
Proof.
  destruct t as [|b [|c t]]; [| |reflexivity]; unfold startsTerminator;
    rewrite ?append_cons, ?append_nil; f_equal.
  - destruct x; [reflexivity|].
    destruct (N.eqb_spec (N_of_ascii h) 128) as [E|_]; [lia|].
    by rewrite andb_false_r.
  - destruct (N.eqb_spec (N_of_ascii h) 168) as [E|_]; [lia|].
    destruct (N.eqb_spec (N_of_ascii h) 169) as [E|_]; [lia|].
    by rewrite andb_false_r.
Qed.

Lemma fits_cons a t x :
  fits dotAll (String a t) ->
  (dotAll || negb (startsTerminator (String a (t +:+ delim +:+ x)))) = true /\
  fits dotAll t.
Proof.
  unfold fits. intros [->|H]; [by auto|].
  cbn [holdsTerminator] in H. apply orb_false_iff in H as [Hs Ht].
  split; [|by right]. rewrite append_cons, startsTerminator_group, Hs.
  apply orb_true_r.
Qed.

(** A group free of the first character of the delimiter ends at the first
    delimiter after it. *)
Lemma findClose_found t rest :
  count h t = 0 -> fits dotAll t ->
  findClose delim dotAll (t +:+ delim +:+ rest) = Some t.
Proof.
  induction t as [|a t IH]; intros Hc Hf.
  - rewrite append_nil, append_cons. cbn [findClose].
    by rewrite <- append_cons, (startsWith_self delim rest).
  - rewrite append_cons. cbn [findClose startsWith]. cbn [count] in Hc.
    destruct (Ascii.eqb_spec a h) as [->|Hne]; [lia|].
    destruct (fits_cons a t rest Hf) as [-> Hf'].
    rewrite IH; [reflexivity | lia | exact Hf'].
Qed.

(** Where a delimited stretch starts, it is replaced and the scan goes on
    behind it. *)
Lemma pass_match t rest :
  count h t = 0 -> fits dotAll t ->
  pass 0 (delim +:+ t +:+ delim +:+ rest) = pre +:+ t +:+ post +:+ pass 0 rest.
Proof.
  intros Hc Hf. rewrite append_cons. cbn [replaceDelimited].
  rewrite <- append_cons, (startsWith_self delim).
  rewrite (dropChars_append delim), (findClose_found t rest Hc Hf).
  replace (d' +:+ t +:+ delim +:+ rest) with ((d' +:+ t +:+ delim) +:+ rest)
    by by rewrite !append_assoc.
  replace (String.length delim + String.length t + String.length delim - 1)
    with (String.length (d' +:+ t +:+ delim)).
  - by rewrite pass_skip.
  - rewrite !length_append. cbn [String.length]. lia.
Qed.

End Match.

Lemma pass_match_end h d' dotAll pre post t :
  (N_of_ascii h < 128)%N -> count h t = 0 -> fits dotAll t ->
  replaceDelimited (String h d') dotAll pre post 0 (String h d' +:+ t +:+ String h d') =
  pre +:+ t +:+ post.
Proof.
  intros Hh Hc Hf. pose proof (pass_match h d' dotAll pre post Hh t "" Hc Hf) as H.
  rewrite (append_empty_r (String h d')) in H. cbn [replaceDelimited] in H.
  by rewrite (append_empty_r post) in H.
Qed.

(** *** Line breaks *)

Lemma isLineFeed a : (N_of_ascii a =? 10)%N = Ascii.eqb a lineFeed.
Proof.
  destruct (Ascii.eqb_spec a lineFeed) as [->|Hne]; [reflexivity|].
  destruct (N.eqb_spec (N_of_ascii a) 10) as [E|_]; [|reflexivity].
  destruct Hne. by apply ascii_of_code.
Qed.

Lemma breakLines_unchanged s : count lineFeed s = 0 -> breakLines s = s.
Proof.
  induction s as [|a r IH]; [reflexivity|]. cbn [count breakLines]. intros Hc.
  rewrite isLineFeed. destruct (Ascii.eqb a lineFeed); [lia|].
  by rewrite IH by lia.
Qed.

Lemma breakLines_no_lineFeed s : count lineFeed (breakLines s) = 0.
Proof.
  induction s as [|a r IH]; [reflexivity|]. cbn [breakLines]. rewrite isLineFeed.
  destruct (Ascii.eqb a lineFeed) eqn:E.
  - rewrite count_append, IH. reflexivity.
  - cbn [count]. by rewrite IH, E.
Qed.

Lemma lines_cons s : exists l ls, lines s = l :: ls.
Proof.
  destruct s as [|a r]; [by eauto|]. cbn [lines].
  destruct (Ascii.eqb a lineFeed); [by eauto|]. destruct (lines r); eauto.
Qed.

(** [replace(/\n/g, '<br>')] puts the lines together again with [<br>]
    between them. *)
Lemma breakLines_lines s : breakLines s = join "<br>" (lines s).
Proof.
  induction s as [|a r IH]; [reflexivity|]. cbn [breakLines lines].
  rewrite isLineFeed, IH. destruct (lines_cons r) as (l & ls & ->).
  destruct (Ascii.eqb a lineFeed); [reflexivity|]. by destruct ls.
Qed.

Lemma length_lines s : length (lines s) = S (count lineFeed s).
Proof.
  induction s as [|a r IH]; [reflexivity|]. cbn [lines count].
  destruct (Ascii.eqb a lineFeed); [simpl; by rewrite IH|].
  destruct (lines_cons r) as (l & ls & E). rewrite E in *. exact IH.
Qed.

(** *** The whole of [formatMessage] *)

Ltac few_enough :=
  rewrite ?count_append;
  repeat match goal with H : count _ _ = 0 |- _ => rewrite H end;
  vm_compute; lia.

Lemma ascii_star : (N_of_ascii "*" < 128)%N.
Proof. reflexivity. Qed.

Lemma ascii_tick : (N_of_ascii tick < 128)%N.
Proof. reflexivity. Qed.

(** Without a star and a backtick no pass finds a delimiter. *)
Lemma markup_unchanged s : count star s = 0 -> count tick s = 0 -> markup s = s.
Proof.
  intros Hs Ht. unfold markup.
  rewrite (pass_unchanged "**" false _ _ star s) by few_enough.
  rewrite (pass_unchanged "*" false _ _ star s) by few_enough.
  rewrite (pass_unchanged _ true _ _ tick s) by few_enough.
  by rewrite (pass_unchanged _ false _ _ tick s) by few_enough.
Qed.

(** The passes neither write nor remove a line feed. *)
Lemma markup_lineFeeds s : count lineFeed (markup s) = count lineFeed s.
Proof.
  unfold markup.
  etrans; [apply (pass_count tick "" false codeOpen "</code>" lineFeed); reflexivity|].
  rewrite dropChars_zero.
  etrans; [apply (pass_count tick (backtick +:+ backtick) true preOpen
                    "</code></pre>" lineFeed); reflexivity|].
  rewrite dropChars_zero.
  etrans; [apply (pass_count "*" "" false "<em>" "</em>" lineFeed); reflexivity|].
  rewrite dropChars_zero.
  etrans; [apply (pass_count "*" "*" false "<strong>" "</strong>" lineFeed);
           reflexivity|].
  apply f_equal, dropChars_zero.
Qed.

(** X1. Text without a star, a backtick or a line break comes out of
    [formatMessage] as it went in; in particular the characters of HTML are
    not escaped. *)
Theorem formatMessage_plain s : plain s -> formatMessage s = s.
Proof.
  intros (Hs & Ht & Hl & Hr). unfold formatMessage.
  rewrite (markup_unchanged s Hs Ht). by apply breakLines_unchanged.
Qed.

Lemma formatMessage_plain_witness :
  formatMessage "<img src=x onerror=alert(1)>" = "<img src=x onerror=alert(1)>".
Proof. apply formatMessage_plain. repeat split. Defined.

(** X2. [formatMessage] returns the lines of the marked-up content with a
    [<br>] between each line and the next: the passes before keep every line
    feed of the content, so there is one line more than the content has
    line feeds, and no line feed is left in what is returned.  For a content
    without a star and a backtick these are the lines of the content
    itself. *)
Theorem formatMessage_joins_lines s :
  formatMessage s = join "<br>" (lines (markup s)) /\
  length (lines (markup s)) = S (count lineFeed s) /\
  count lineFeed (formatMessage s) = 0 /\
  (count star s = 0 -> count tick s = 0 ->
   formatMessage s = join "<br>" (lines s)).
Proof.
  unfold formatMessage. split; [apply breakLines_lines|].
  split; [by rewrite length_lines, markup_lineFeeds|].
  split; [apply breakLines_no_lineFeed|].
  intros Hs Ht. rewrite (markup_unchanged s Hs Ht). apply breakLines_lines.
Qed.

Lemma formatMessage_joins_lines_witness :
  formatMessage ("a" +:+ String lineFeed (String lineFeed "b <c>")) = "a<br><br>b <c>".
Proof.
  destruct (formatMessage_joins_lines
              ("a" +:+ String lineFeed (String lineFeed "b <c>"))) as (_ & _ & _ & H).
  rewrite H; reflexivity.
Defined.

(** X3. A text in one line that holds no star and no backtick is rendered
    strong between two double stars, emphasised between two stars, and as
    inline code between two backticks. *)
Theorem formatMessage_wraps t :
  plain t -> ~ occurs lineSeparator t -> ~ occurs paragraphSeparator t ->
  formatMessage ("**" +:+ t +:+ "**") = "<strong>" +:+ t +:+ "</strong>" /\
  formatMessage ("*" +:+ t +:+ "*") = "<em>" +:+ t +:+ "</em>" /\
  formatMessage (backtick +:+ t +:+ backtick) = codeOpen +:+ t +:+ "</code>".
Proof.
  intros (Hs & Ht & Hl & Hr) Hls Hps.
  assert (fits false t) as Hf by (by apply oneLine_fits).
  split; [|split]; unfold formatMessage, markup.
  - rewrite (pass_match_end "*" "*" false _ _ t ascii_star Hs Hf).
    rewrite (pass_unchanged "*" false _ _ star) by few_enough.
    rewrite (pass_unchanged _ true _ _ tick) by few_enough.
    rewrite (pass_unchanged _ false _ _ tick) by few_enough.
    apply breakLines_unchanged. few_enough.
  - assert (replaceDelimited "**" false "<strong>" "</strong>" 0 ("*" +:+ t +:+ "*")
            = "*" +:+ t +:+ "*") as ->.
    { destruct t as [|a t]; [reflexivity|]. cbn [count] in Hs.
      destruct (Ascii.eqb a star) eqn:Ha; [simpl in Hs; lia|].
      change star with "*"%char in Ha.
      change ("*" +:+ String a t +:+ "*") with (String "*" (String a (t +:+ "*"))).
      cbn [replaceDelimited startsWith]. rewrite Ha. do 2 f_equal.
      apply (pass_unchanged "**" false _ _ star).
      rewrite count_append. simpl in Hs. rewrite Hs. vm_compute. lia. }
    rewrite (pass_match_end "*" "" false _ _ t ascii_star Hs Hf).
    rewrite (pass_unchanged _ true _ _ tick) by few_enough.
    rewrite (pass_unchanged _ false _ _ tick) by few_enough.
    apply breakLines_unchanged. few_enough.
  - rewrite (pass_unchanged "**" false _ _ star) by few_enough.
    rewrite (pass_unchanged "*" false _ _ star) by few_enough.
    rewrite (pass_unchanged _ true _ _ tick) by few_enough.
    rewrite (pass_match_end tick "" false _ _ t ascii_tick Ht Hf).
    apply breakLines_unchanged. few_enough.
Qed.

Lemma formatMessage_wraps_witness :
  formatMessage "**for loop**" = "<strong>for loop</strong>" /\
  formatMessage "*for loop*" = "<em>for loop</em>".
Proof.
  destruct (formatMessage_wraps "for loop") as (Hb & He & _).
  - repeat split.
  - intros H. apply includes_occurs in H. discriminate H.
  - intros H. apply includes_occurs in H. discriminate H.
  - split; [exact Hb | exact He].
Defined.

(** X4. A double star that is never closed does not stay as typed: the
    second pass takes its two stars for an empty emphasis. *)
Theorem formatMessage_unclosed_bold t :
  plain t -> formatMessage ("**" +:+ t) = "<em></em>" +:+ t.
Proof.
  intros Hp. assert (fits false "") as Hf by (by right).
  destruct Hp as (Hs & Ht & Hl & Hr). unfold formatMessage, markup.
  assert (replaceDelimited "**" false "<strong>" "</strong>" 0 ("**" +:+ t)
          = "**" +:+ t) as ->.
  { change ("**" +:+ t) with (String "*" (String "*" t)).
    rewrite (pass_opening_alone "**" false _ _ "*" (String "*" t));
      [|reflexivity|apply (findClose_none "**" false star t); few_enough].
    f_equal. apply (pass_unchanged "**" false _ _ star).
    cbn [count]. rewrite Hs. vm_compute. lia. }
  pose proof (pass_match "*" "" false "<em>" "</em>" ascii_star "" t eq_refl Hf) as H.
  rewrite !append_nil in H. change ("*" +:+ "*" +:+ t) with ("**" +:+ t) in H.
  rewrite H, (pass_unchanged "*" false _ _ star t) by few_enough.
  rewrite (pass_unchanged _ true _ _ tick) by few_enough.
  rewrite (pass_unchanged _ false _ _ tick) by few_enough.
  apply breakLines_unchanged. few_enough.
Qed.

Lemma formatMessage_unclosed_bold_witness :
  formatMessage "**note" = "<em></em>note".
Proof. apply (formatMessage_unclosed_bold "note"). repeat split. Defined.

End FormatFacts.

(** ** More of the chat page *)
Module ChatKeysFacts.
Import JS Async Chat ChatKeys JSFacts AsyncFacts ChatFacts.

(** *** The loop of [handleFileUpload] *)

Lemma handleFileUpload_resume_next f rest sid now o st :
  let r := handleFileUpload_resume f rest sid now o st in
  r.1.2 = match rest with
          | [] => []
          | g :: _ => [Fetch (PostUpload g (formSession sid))]
          end /\
  r.2 = match rest with
        | [] => None
        | g :: rest' => Some (PUpload g rest' sid)
        end.
Proof. by destruct rest. Qed.

Lemma upload_loop rest : forall f sid w l rs,
  inflight w = l ++ [PUpload f rest sid] ->
  length rs = S (length rest) ->
  let w' := run (uploadReplies (length l) rs) w in
  messages (ui w') = messages (ui w) ++ uploadNotices (f :: rest) rs /\
  trace w' = trace w ++ map (fun g => Fetch (PostUpload g (formSession sid))) rest /\
  inflight w' = l.
Proof.
  induction rest as [|g rest IH]; intros f sid w l [|[now o] rs] Hin Hlen;
    try discriminate; cbv zeta;
    change (uploadReplies (length l) ((now, o) :: rs))
      with (UploadReturned (length l) now o :: uploadReplies (length l) rs);
    cbn [run].
  - destruct rs; [|discriminate]. cbn [uploadReplies run map uploadNotices]. simpl step.
    rewrite Hin, list_lookup_middle by reflexivity.
    pose proof (handleFileUpload_resume_messages f [] sid now o (ui w)) as Hm.
    destruct (handleFileUpload_resume_next f [] sid now o (ui w)) as [He Hp].
    destruct (handleFileUpload_resume f [] sid now o (ui w)) as [[st eff] p].
    simpl in *. subst eff p. simpl.
    rewrite Hm, !app_nil_r. split; [reflexivity|]. split; [reflexivity|].
    by rewrite Hin, (delete_middle l []), app_nil_r.
  - set (w1 := step (UploadReturned (length l) now o) w).
    assert (inflight w1 = l ++ [PUpload g rest sid] /\
            messages (ui w1) = messages (ui w) ++ uploadTurn now f o /\
            trace w1 = trace w ++ [Fetch (PostUpload g (formSession sid))])
      as (Hin1 & Hm1 & Ht1).
    { subst w1. simpl step. rewrite Hin, list_lookup_middle by reflexivity.
      pose proof (handleFileUpload_resume_messages f (g :: rest) sid now o (ui w)) as Hm.
      destruct (handleFileUpload_resume_next f (g :: rest) sid now o (ui w)) as [He Hp].
      destruct (handleFileUpload_resume f (g :: rest) sid now o (ui w)) as [[st eff] p].
      simpl in *. subst eff p. simpl.
      by rewrite Hin, (delete_middle l []), app_nil_r. }
    injection Hlen as Hlen.
    destruct (IH g sid w1 l rs Hin1 Hlen) as (Hm & Ht & Hi).
    rewrite Hm, Ht, Hi, Hm1, Ht1.
    cbn [uploadNotices map fst snd]. by rewrite <- !app_assoc.
Qed.

(** X6. [handleFileUpload] takes the chosen files one after the other: when
    every reply has been handled, one upload has been posted per file, in
    the order of the files and with the session identifier of the moment of
    the choice, whatever the replies were (a failed upload does not stop
    the loop), and the transcript has received the notices of the uploads
    that succeeded, in that order. *)
Theorem upload_loop_takes_every_file w fs rs :
  length rs = length fs ->
  let w' := run (FilesChosen fs :: uploadReplies (length (inflight w)) rs) w in
  trace w' =
    trace w ++ map (fun g => Fetch (PostUpload g (formSession (sessionId (ui w))))) fs /\
  messages (ui w') = messages (ui w) ++ uploadNotices fs rs /\
  inflight w' = inflight w.
Proof.
  intros Hlen. destruct fs as [|f rest].
  - destruct rs; [|discriminate]. destruct w as [st l tr]. simpl.
    by rewrite !app_nil_r.
  - cbv zeta. cbn [run]. set (w1 := step (FilesChosen (f :: rest)) w).
    assert (inflight w1 = inflight w ++ [PUpload f rest (sessionId (ui w))] /\
            messages (ui w1) = messages (ui w) /\
            trace w1 = trace w ++ [Fetch (PostUpload f (formSession (sessionId (ui w))))])
      as (Hin1 & Hm1 & Ht1) by done.
    destruct (upload_loop rest f _ w1 _ rs Hin1 Hlen) as (Hm & Ht & Hi).
    rewrite Hm, Ht, Hi, Hm1, Ht1. cbn [map]. by rewrite <- !app_assoc.
Qed.

(** Two files are chosen; the first upload fails, the second goes through. *)
Lemma upload_loop_takes_every_file_witness :
  let a := {| fileObj := 1; fileName := "lab1.pdf" |} in
  let b := {| fileObj := 2; fileName := "sort.py" |} in
  let ok := {| ack_success := true; ack_message := "3 chunks" |} in
  let w := run [FilesChosen [a; b]; UploadReturned 0 6 (Threw "Failed to fetch");
                UploadReturned 0 7 (Replied ok)] (boot "k3x" 5) in
  trace w = [Fetch (PostUpload a (Some "k3x5")); Fetch (PostUpload b (Some "k3x5"))] /\
  messages (ui w) = [welcomeMessage 5; uploadMessage 7 b ok].
Proof.
  intros a b ok w.
  destruct (upload_loop_takes_every_file (boot "k3x" 5) [a; b]
              [(6%N, Threw "Failed to fetch"); (7%N, Replied ok)] eq_refl)
    as (Ht & Hm & _).
  split; [exact Ht | exact Hm].
Defined.

(** *** The status of the files *)

Lemma lookup_delete_other {A} (l : list A) k j x :
  l !! j = Some x -> j <> k -> exists j', delete k l !! j' = Some x.
Proof.
  intros Hj Hne. destruct (decide (j < k)) as [Hlt|Hge].
  - exists j. by rewrite list_lookup_delete_lt.
  - exists (pred j). rewrite list_lookup_delete_ge by lia.
    by replace (S (pred j)) with j by lia.
Qed.

Lemma lookup_suspend_old {A} (p : option A) (l : list A) j x :
  l !! j = Some x -> suspend p l !! j = Some x.
Proof. intros H. destruct p; [by apply lookup_app_l_Some | exact H]. Qed.

(** The files are as they were and the uploads in flight still are. *)
Lemma uploadingAwaited_kept w w' :
  uploadingAwaited w -> files (ui w') = files (ui w) ->
  (forall j f rest sid, inflight w !! j = Some (PUpload f rest sid) ->
     exists j', inflight w' !! j' = Some (PUpload f rest sid)) ->
  uploadingAwaited w'.
Proof.
  intros Hw Hf Hin fu Hfu Hst. rewrite Hf in Hfu.
  destruct (Hw fu Hfu Hst) as (j & f & rest & sid & Hj & Hsame).
  destruct (Hin j f rest sid Hj) as [j' Hj']. by exists j', f, rest, sid.
Qed.

Lemma sendMessage_begin_files now st : files (sendMessage_begin now st).1.1 = files st.
Proof. unfold sendMessage_begin. by destruct (sendBlocked st). Qed.

Lemma sendMessage_resume_files sent now o st :
  files (sendMessage_resume sent now o st).1 = files st.
Proof.
  unfold sendMessage_resume, sendMessage_catch. destruct o as [e|d]; [reflexivity|].
  destruct (success d); [|reflexivity].
  by destruct (truthyOpt (session_id d) && bool_decide (session_id d <> sent)).
Qed.

Lemma clearMemory_resume_files ty o st : files (clearMemory_resume ty o st).1 = files st.
Proof.
  unfold clearMemory_resume. destruct o as [e|d]; [reflexivity|].
  by destruct (ack_success d), ty.
Qed.

Lemma markFile_settles f s m fu :
  s <> uploading -> status (markFile f s m fu) = uploading ->
  markFile f s m fu = fu /\ sameFile (file fu) f = false.
Proof.
  unfold markFile. destruct (sameFile (file fu) f); [|by auto].
  simpl. intros Hs Hu. by destruct Hs.
Qed.

(** What the reply to the upload of [f] leaves of the entries of [files]:
    those that still read "uploading" are entries of other files, as they
    were, or the entry of the file the loop goes on with. *)
Lemma handleFileUpload_resume_files f rest sid now o st fu :
  fu ∈ files (handleFileUpload_resume f rest sid now o st).1.1 ->
  status fu = uploading ->
  (fu ∈ files st /\ sameFile (file fu) f = false) \/
  (exists g rest', rest = g :: rest' /\ file fu = g).
Proof.
  unfold handleFileUpload_resume.
  set (st1 := match o with Replied _ => _ | Threw _ => _ end).
  assert (exists s m, s <> uploading /\ files st1 = map (markFile f s m) (files st))
    as (s & m & Hs & Hst1).
  { subst st1. destruct o as [e|d]; [by exists error, "Upload failed"|].
    exists (if ack_success d then completed else error), (ack_message d).
    by destruct (ack_success d). }
  intros Hin Hu.
  assert (fu ∈ files st1 \/ exists g rest', rest = g :: rest' /\ file fu = g)
    as [Hold|Hnew].
  { destruct rest as [|g rest']; [by left|]. simpl in Hin.
    apply elem_of_app in Hin as [Hin|Hin]; [by left|].
    apply list_elem_of_singleton in Hin as ->. right. by exists g, rest'. }
  - left. rewrite Hst1 in Hold.
    apply list_elem_of_In, in_map_iff in Hold as (fu0 & Heq & Hin0).
    subst fu. destruct (markFile_settles f s m fu0 Hs Hu) as [-> Hother].
    split; [by apply list_elem_of_In | exact Hother].
  - by right.
Qed.

Lemma sameFile_refl f : sameFile f f = true.
Proof. apply Nat.eqb_refl. Qed.

Lemma uploadingAwaited_step e w : uploadingAwaited w -> uploadingAwaited (step e w).
Proof.
  intros Hw. destruct e as [text|now|k now o|fs|k now o|ty|k o|]; simpl.
  - by apply (uploadingAwaited_kept w); eauto.
  - pose proof (sendMessage_begin_files now (ui w)) as Hf.
    destruct (sendMessage_begin now (ui w)) as [[st eff] p].
    apply (uploadingAwaited_kept w); [done|done|].
    intros j f rest sid Hj. exists j. by apply lookup_suspend_old.
  - destruct (inflight w !! k) as [[sent|f rest sid|ty]|] eqn:Hk; try exact Hw.
    pose proof (sendMessage_resume_files sent now o (ui w)) as Hf.
    destruct (sendMessage_resume sent now o (ui w)) as [st eff].
    apply (uploadingAwaited_kept w); [done|done|].
    intros j f rest sid Hj. simpl.
    apply (lookup_delete_other _ k j); [done | congruence].
  - destruct fs as [|f rest].
    { apply (uploadingAwaited_kept w); [done|done|]. simpl. eauto. }
    intros fu Hfu Hu. simpl in Hfu.
    apply elem_of_app in Hfu as [Hfu|Hfu].
    + destruct (Hw fu Hfu Hu) as (j & g & rest' & sid & Hj & Hsame).
      exists j, g, rest', sid. split; [|done]. simpl. by apply lookup_app_l_Some.
    + apply list_elem_of_singleton in Hfu as ->.
      exists (length (inflight w)), f, rest, (sessionId (ui w)). simpl.
      split; [by apply list_lookup_middle | apply sameFile_refl].
  - destruct (inflight w !! k) as [[sent|f rest sid|ty]|] eqn:Hk; try exact Hw.
    pose proof (handleFileUpload_resume_files f rest sid now o (ui w)) as Hfiles.
    destruct (handleFileUpload_resume_next f rest sid now o (ui w)) as [_ Hp].
    destruct (handleFileUpload_resume f rest sid now o (ui w)) as [[st eff] p].
    simpl in *. subst p. intros fu Hfu Hu. simpl in Hfu.
    destruct (Hfiles fu Hfu Hu) as [[Hold Hother]|(g & rest' & -> & Hg)].
    + destruct (Hw fu Hold Hu) as (j & g & rest' & sid' & Hj & Hsame).
      assert (j <> k) as Hne.
      { intros ->. rewrite Hk in Hj. injection Hj as <- _ _. congruence. }
      destruct (lookup_delete_other _ k j _ Hj Hne) as [j' Hj'].
      exists j', g, rest', sid'. split; [|done]. simpl. by apply lookup_suspend_old.
    + exists (length (delete k (inflight w))), g, rest', sid. simpl.
      split; [by apply list_lookup_middle | rewrite Hg; apply sameFile_refl].
  - pose proof (clearMemory_begin_state ty (ui w)) as Hst.
    destruct (clearMemory_begin ty (ui w)) as [[st eff] p]. simpl in Hst. subst st.
    apply (uploadingAwaited_kept w); [done|done|].
    intros j f rest sid Hj. exists j. by apply lookup_suspend_old.
  - destruct (inflight w !! k) as [[sent|f rest sid|ty]|] eqn:Hk; try exact Hw.
    pose proof (clearMemory_resume_files ty o (ui w)) as Hf.
    destruct (clearMemory_resume ty o (ui w)) as [st eff].
    apply (uploadingAwaited_kept w); [done|done|].
    intros j f rest sid Hj. simpl.
    apply (lookup_delete_other _ k j); [done | congruence].
  - by apply (uploadingAwaited_kept w); eauto.
Qed.

Lemma uploadingAwaited_run evs w : uploadingAwaited w -> uploadingAwaited (run evs w).
Proof.
  revert w. induction evs as [|e evs IH]; intros w Hw; simpl; [exact Hw|].
  apply IH, uploadingAwaited_step, Hw.
Qed.

(** X7. In every world the page reaches, an entry of the file list reads
    "uploading" only while an upload of its file is in flight; so once no
    upload is in flight every entry reads "completed" or "error". *)
Theorem uploading_only_in_flight rnd t0 evs :
  let w := run evs (boot rnd t0) in
  uploadingAwaited w /\
  ((forall j f rest sid, inflight w !! j <> Some (PUpload f rest sid)) ->
   forall fu, fu ∈ files (ui w) -> status fu <> uploading).
Proof.
  intros w.
  assert (uploadingAwaited w) as Hw.
  { apply uploadingAwaited_run. intros fu Hfu. by apply elem_of_nil in Hfu. }
  split; [exact Hw|]. intros Hnone fu Hfu Hu.
  destruct (Hw fu Hfu Hu) as (j & f & rest & sid & Hj & _).
  by apply (Hnone j f rest sid).
Qed.

End ChatKeysFacts.

(** ** More of the compare page *)
Module CompareMoreFacts.
Import JS Async Compare CompareMore AsyncFacts CompareFacts.

Section Page.

Context {OttoScore : Type} (ticker : OttoScore -> string).
Context (toUpperCase : string -> string).

Local Abbreviation World := (World OttoScore).
Local Abbreviation State := (State OttoScore).
Local Abbreviation addable := (addable ticker toUpperCase).

Implicit Types (w : World) (st : State).

Lemma handleAddStock_begin_asks st :
  addable st ->
  handleAddStock_begin ticker toUpperCase st =
  (setLoading true st, [GetScore (searchTicker st)],
   Some (PAdd (compareStocks st) (searchTicker st))).
Proof.
  intros (Ht & Hlen & Hnew). unfold handleAddStock_begin. rewrite Ht.
  destruct (Nat.leb_spec 3 (length (compareStocks st))) as [Hge|_]; [lia|].
  apply (alreadyAdded_not_elem ticker toUpperCase) in Hnew. by rewrite Hnew.
Qed.

Lemma step_add_asks w :
  addable (ui w) ->
  step ticker toUpperCase AddSubmitted w =
  {| ui := setLoading true (ui w);
     inflight := inflight w ++ [PAdd (compareStocks (ui w)) (searchTicker (ui w))];
     trace := trace w ++ [GetScore (searchTicker (ui w))] |}.
Proof. intros H. simpl. by rewrite (handleAddStock_begin_asks _ H). Qed.

(** X8. When [getScore] throws, the add leaves the page exactly as it was
    before the submit: the list and the typed ticker are kept, nothing stays
    in flight, and the one thing the user sees is the alert that names the
    ticker in upper case. *)
Theorem failed_add_restores_page w exn :
  addable (ui w) -> loading (ui w) = false ->
  let w' := run ticker toUpperCase [AddSubmitted; ScoreReturned (length (inflight w)) (Threw exn)] w in
  ui w' = ui w /\ inflight w' = inflight w /\
  trace w' = trace w ++
    [GetScore (searchTicker (ui w));
     Alert ("Could not find data for " +:+ toUpperCase (searchTicker (ui w)))].
Proof.
  intros Ha Hl. cbv zeta. cbn [run]. rewrite (step_add_asks w Ha).
  destruct w as [[stocks typed ld] l tr]. simpl in *. subst ld.
  rewrite list_lookup_middle by reflexivity. simpl.
  by rewrite (delete_middle l []), app_nil_r, <- app_assoc.
Qed.

(** X9. [handleAddStock] writes back the list it was called with: a stock
    removed while the score is awaited is in the list again once the score
    has come. *)
Theorem removal_during_add_is_undone w t stock :
  addable (ui w) ->
  let k := length (inflight w) in
  let w1 := run ticker toUpperCase [AddSubmitted; RemoveClicked t] w in
  let w2 := step ticker toUpperCase (ScoreReturned k (Replied stock)) w1 in
  compareStocks (ui w1) = filter (fun s => ticker s <> t) (compareStocks (ui w)) /\
  compareStocks (ui w2) = compareStocks (ui w) ++ [stock].
Proof.
  intros Ha. cbv zeta. cbn [run]. rewrite (step_add_asks w Ha).
  split; [reflexivity|]. simpl. by rewrite list_lookup_middle.
Qed.

(** X10. Removing a stock makes room for it: after [removeStock] of a
    ticker of the list, typing that ticker (in any case) and submitting is
    not refused, also when the list was full. *)
Theorem removed_ticker_can_be_added st t typed :
  length (compareStocks st) <= 3 -> t ∈ (ticker <$> compareStocks st) ->
  toUpperCase typed = t -> truthy (trim typed) = true ->
  handleAddStock_begin ticker toUpperCase (setSearchTicker typed (removeStock ticker t st)) =
  (setLoading true (setSearchTicker typed (removeStock ticker t st)),
   [GetScore typed],
   Some (PAdd (filter (fun s => ticker s <> t) (compareStocks st)) typed)).
Proof.
  intros Hlen Hin Hup Ht. apply handleAddStock_begin_asks. split; [exact Ht|]. simpl.
  apply list_elem_of_fmap in Hin as (x & -> & Hx). split.
  - eapply Nat.lt_le_trans; [|exact Hlen].
    apply (length_filter_lt _ _ x); [exact Hx | by intros H].
  - rewrite Hup. intros Hin. apply list_elem_of_fmap in Hin as (y & Heq & Hy).
    apply list_elem_of_filter in Hy as [Hne _]. by rewrite Heq in Hne.
Qed.

End Page.

Lemma failed_add_restores_page_witness :
  let w := step fst toUpperCase (TickerTyped "zzzz") (boot (string * nat)) in
  ui (run fst toUpperCase [AddSubmitted; ScoreReturned 0 (Threw "404")] w) = ui w.
Proof.
  intros w.
  apply (failed_add_restores_page (OttoScore := string * nat) fst toUpperCase w "404").
  - repeat split; [simpl; lia | apply not_elem_of_nil].
  - reflexivity.
Defined.

Lemma removal_during_add_is_undone_witness :
  let w : World (string * nat) :=
    {| ui := {| compareStocks := [("KO", 70)]; searchTicker := "aapl"; loading := false |};
       inflight := []; trace := [] |} in
  compareStocks
    (ui (run fst toUpperCase [AddSubmitted; RemoveClicked "KO"; ScoreReturned 0 (Replied ("AAPL", 81))] w))
  = [("KO", 70); ("AAPL", 81)].
Proof.
  intros w.
  apply (removal_during_add_is_undone (OttoScore := string * nat) fst toUpperCase w "KO" ("AAPL", 81)).
  repeat split; [simpl; lia|]. simpl. intros H.
  apply list_elem_of_singleton in H. discriminate.
Defined.

Lemma removed_ticker_can_be_added_witness :
  let st : State (string * nat) :=
    {| compareStocks := [("KO", 70); ("AAPL", 81); ("JNJ", 90)];
       searchTicker := ""; loading := false |} in
  (handleAddStock_begin fst toUpperCase (setSearchTicker "Ko" (removeStock fst "KO" st))).1.2
  = [GetScore "Ko"].
Proof.
  intros st.
  rewrite (removed_ticker_can_be_added (OttoScore := string * nat) fst toUpperCase st "KO" "Ko");
    [reflexivity | simpl; lia | | reflexivity | reflexivity].
  simpl. apply elem_of_cons. by left.
Defined.

End CompareMoreFacts.

(** ** More of the calendar page *)
Module CalendarMoreFacts.
Import JS Calendar CalendarMore JSFacts CalendarFacts.

Section Page.

Context {CalendarStock : Type} (ticker companyName : CalendarStock -> string).
Context (calendarStocks : list CalendarStock).
Context (toLowerCase : string -> string).

Local Abbreviation State := (State CalendarStock).
Local Abbreviation step := (step ticker companyName calendarStocks toLowerCase).
Local Abbreviation run := (run ticker companyName calendarStocks toLowerCase).
Local Abbreviation tidy := (tidy ticker).

Implicit Types (st : State) (stock : CalendarStock).

Lemma isSelected_elem (l : list CalendarStock) stock :
  isSelected ticker l stock = true <-> ticker stock ∈ (ticker <$> l).
Proof.
  unfold isSelected. rewrite existsb_exists, list_elem_of_fmap. split.
  - intros (x & Hx & Heq). apply String.eqb_eq in Heq.
    exists x. split; [done | by apply list_elem_of_In].
  - intros (x & Heq & Hx). exists x.
    split; [by apply list_elem_of_In | by apply String.eqb_eq].
Qed.

Lemma removeStock_filter t st :
  selectedStocks (removeStock ticker t st) =
  filter (fun s => ticker s <> t) (selectedStocks st).
Proof.
  apply filter_agrees. intros x. rewrite negb_true_iff.
  destruct (String.eqb_spec (ticker x) t); split; congruence.
Qed.

Lemma filter_absent (l : list CalendarStock) t :
  t ∉ (ticker <$> l) -> filter (fun s => ticker s <> t) l = l.
Proof.
  induction l as [|x l IH]; [reflexivity|].
  rewrite fmap_cons, not_elem_of_cons. intros [Hx Hl].
  rewrite filter_cons_True by (intros E; by apply Hx). by rewrite IH.
Qed.

(** [addStock] either adds the stock at the end, having checked that there
    is room and that its ticker is new, or does nothing. *)
Lemma addStock_cases stock st :
  (length (selectedStocks st) < 3 /\
   (ticker stock ∉ (ticker <$> selectedStocks st)) /\
   addStock ticker stock st =
   {| selectedStocks := selectedStocks st ++ [stock]; searchTicker := "";
      searchResults := [] |}) \/
  ((3 <= length (selectedStocks st) \/ ticker stock ∈ (ticker <$> selectedStocks st)) /\
   addStock ticker stock st = st).
Proof.
  unfold addStock.
  destruct (Nat.ltb_spec (length (selectedStocks st)) 3) as [Hlt|Hge];
    [|right; by auto].
  destruct (isSelected ticker (selectedStocks st) stock) eqn:Hs.
  - right. apply isSelected_elem in Hs. by auto.
  - left. split; [exact Hlt|]. split; [|reflexivity].
    intros Hin. apply isSelected_elem in Hin. congruence.
Qed.

Lemma tidy_step e st : tidy st -> tidy (step e st).
Proof.
  intros [Hlen Hnd]. destruct e as [text| |stock|t]; simpl.
  - by split.
  - unfold handleSearch. by destruct (truthy (trim (searchTicker st))).
  - destruct (addStock_cases stock st) as [(Hlt & Hnew & ->)|[_ ->]]; [|by split].
    split; simpl; [rewrite length_app; simpl; lia|].
    rewrite fmap_app. apply NoDup_app. split; [exact Hnd|].
    split; [|apply NoDup_singleton].
    intros x Hx Hx'. apply list_elem_of_singleton in Hx'. by subst.
  - unfold CalendarMore.tidy. rewrite removeStock_filter. split.
    + etrans; [apply length_filter | exact Hlen].
    + eapply sublist_NoDup; [exact Hnd|]. apply fmap_sublist, sublist_filter.
Qed.

(** X11. Whatever is typed, searched, added and removed, the plan never
    holds more than three stocks and never two stocks of the same ticker. *)
Theorem plan_small_and_distinct evs :
  length (selectedStocks (run evs initial)) <= 3 /\
  NoDup (ticker <$> selectedStocks (run evs initial)).
Proof.
  assert (forall st, tidy st -> tidy (run evs st)) as H.
  { induction evs as [|e evs IH]; intros st Hst; simpl; [exact Hst|].
    apply IH, tidy_step, Hst. }
  apply H. split; simpl; [lia | constructor].
Qed.

(** X12. A stock that was added is taken out again by [removeStock] of its
    ticker, and the plan is the one held before. *)
Theorem add_then_remove stock st :
  length (selectedStocks st) < 3 -> ticker stock ∉ (ticker <$> selectedStocks st) ->
  selectedStocks (addStock ticker stock st) = selectedStocks st ++ [stock] /\
  selectedStocks (removeStock ticker (ticker stock) (addStock ticker stock st)) =
  selectedStocks st.
Proof.
  intros Hlt Hnew.
  destruct (addStock_cases stock st) as [(_ & _ & Heq)|[[Hge|Hin] _]]; [|lia|done].
  rewrite removeStock_filter, Heq. split; [reflexivity|]. simpl.
  rewrite filter_app, filter_cons_False, filter_nil, app_nil_r by (by intros H).
  by apply filter_absent.
Qed.

(** X13. The Add button of a stock is disabled exactly when [addStock]
    would leave the state as it is; where it is enabled, the click adds the
    stock at the end of the plan and empties the search box and the
    results. *)
Theorem add_button_matches_addStock stock st :
  (addDisabled ticker stock st = true <-> addStock ticker stock st = st) /\
  (addDisabled ticker stock st = false ->
   addStock ticker stock st =
   {| selectedStocks := selectedStocks st ++ [stock]; searchTicker := "";
      searchResults := [] |}).
Proof.
  assert (addDisabled ticker stock st = true <->
          3 <= length (selectedStocks st) \/ ticker stock ∈ (ticker <$> selectedStocks st))
    as Hd.
  { unfold addDisabled. rewrite orb_true_iff, Nat.leb_le.
    by rewrite <- isSelected_elem. }
  destruct (addStock_cases stock st) as [(Hlt & Hnew & Heq)|[Hfull Heq]].
  - assert (addDisabled ticker stock st = false) as Hf.
    { destruct (addDisabled ticker stock st); [|reflexivity].
      destruct (proj1 Hd eq_refl) as [Hge|Hin]; [lia | contradiction]. }
    split; [|by intros _]. rewrite Hf. split; [discriminate|].
    intros H. rewrite H in Heq. apply (f_equal (fun s => length (selectedStocks s))) in Heq.
    simpl in Heq. rewrite length_app in Heq. simpl in Heq. lia.
  - apply Hd in Hfull. rewrite Hfull. split; [by split|discriminate].
Qed.

End Page.

Lemma add_then_remove_witness :
  let st := {| selectedStocks := [("KO", "Coca-Cola")]; searchTicker := "john";
               searchResults := [("JNJ", "Johnson & Johnson")] |} in
  selectedStocks (removeStock fst "JNJ" (addStock fst ("JNJ", "Johnson & Johnson") st))
  = [("KO", "Coca-Cola")].
Proof.
  intros st.
  apply (add_then_remove (CalendarStock := string * string) fst
           ("JNJ", "Johnson & Johnson") st).
  - simpl. lia.
  - simpl. intros H. apply list_elem_of_singleton in H. discriminate.
Defined.

End CalendarMoreFacts.

(** ** The score page *)
Module ScoreFacts.
Import JS Async Score JSFacts.

Lemma upperChar_lowerChar c : upperChar (lowerChar c) = upperChar c.
Proof. destruct c as [[] [] [] [] [] [] [] []]; reflexivity. Qed.

Lemma upperChar_upperChar c : upperChar (upperChar c) = upperChar c.
Proof. destruct c as [[] [] [] [] [] [] [] []]; reflexivity. Qed.

Lemma toUpperCase_toLowerCase s : toUpperCase (toLowerCase s) = toUpperCase s.
Proof.
  unfold toUpperCase, toLowerCase.
  induction s as [|c s IH]; [reflexivity|]. cbn [mapChars].
  by rewrite upperChar_lowerChar, IH.
Qed.

Lemma toUpperCase_idempotent s : toUpperCase (toUpperCase s) = toUpperCase s.
Proof.
  unfold toUpperCase.
  induction s as [|c s IH]; [reflexivity|]. cbn [mapChars].
  by rewrite upperChar_upperChar, IH.
Qed.

Lemma sameText_upper p q : sameText p q -> toUpperCase p = toUpperCase q.
Proof.
  intros H. apply sameText_lower in H.
  by rewrite <- (toUpperCase_toLowerCase p), H, toUpperCase_toLowerCase.
Qed.

Section Page.

Context {OttoScore : Type} (ticker : OttoScore -> string).
Context (mockStocks : list OttoScore) (getScore : string -> Outcome OttoScore).

(** X14. The score page asks for the route parameter in upper case: two
    routes that differ only by case render the same page, and for each
    parameter [generateStaticParams] lists the page asks [getScore] for
    that very string. *)
Theorem ScorePage_ignores_case :
  (forall p q, sameText p q -> ScorePage getScore p = ScorePage getScore q) /\
  (forall p, p ∈ generateStaticParams ticker mockStocks ->
     ScorePage getScore p =
     match getScore p with
     | Replied stock => ScoreCard stock
     | Threw _ => ErrorCard ("Could not load data for " +:+ p)
     end).
Proof.
  split.
  - intros p q H. unfold ScorePage. by rewrite (sameText_upper p q H).
  - intros p Hp. unfold generateStaticParams in Hp.
    apply list_elem_of_In, in_map_iff in Hp as (stock & <- & _).
    unfold ScorePage. by rewrite toUpperCase_idempotent.
Qed.

End Page.

(** The routes [/score/jnj] and [/score/JNJ] against an API that knows JNJ
    only. *)
Lemma ScorePage_ignores_case_witness :
  let api t := if String.eqb t "JNJ" then Replied ("JNJ", 90) else Threw "404" in
  ScorePage api "jnj" = ScorePage api "JNJ" /\
  ScorePage api "JNJ" = ScoreCard ("JNJ", 90) /\
  ScorePage api "ko" = ErrorCard "Could not load data for KO".
Proof.
  intros api.
  destruct (ScorePage_ignores_case (OttoScore := string * nat) fst [("jnj", 90)] api)
    as [Hcase Hparam].
  split; [apply Hcase; repeat split|]. split; [|reflexivity].
  rewrite Hparam; [reflexivity|]. simpl. apply elem_of_cons. by left.
Defined.

End ScoreFacts.

(** ** The screener page *)
Module ScreenerFacts.
Import JS Async Screener AsyncFacts.

Section Page.

Context {OttoScore ScreenerFilters : Type} (noFilters : ScreenerFilters).

Local Abbreviation World := (World OttoScore ScreenerFilters).
Local Abbreviation boot := (@boot OttoScore ScreenerFilters noFilters).

Implicit Types (w : World).

Lemma lastAsked_app (a b : list (Effect ScreenerFilters)) :
  lastAsked (a ++ b) =
  match lastAsked b with
  | Some f => Some f
  | None => lastAsked a
  end.
Proof.
  induction a as [|e a IH]; simpl; [by destruct (lastAsked b)|].
  rewrite IH. by destruct (lastAsked b).
Qed.

Lemma step_lastAsked e w :
  lastAsked (trace w) = Some (filters (ui w)) ->
  lastAsked (trace (step e w)) = Some (filters (ui (step e w))).
Proof.
  intros Hw. destruct e as [f|k o]; simpl.
  - by rewrite lastAsked_app.
  - destruct (inflight w !! k) as [[asked]|]; [|exact Hw].
    destruct o as [exn|results]; simpl; by rewrite lastAsked_app.
Qed.

(** X15. The request sent last always carries the filters the page holds:
    [handleFiltersChange] hands the new filters to [loadStocks] itself, so
    the filters of the render it was called in are never sent in their
    place. *)
Theorem last_request_has_current_filters evs :
  lastAsked (trace (run evs boot)) = Some (filters (ui (run evs boot))).
Proof.
  assert (forall w, lastAsked (trace w) = Some (filters (ui w)) ->
                    lastAsked (trace (run evs w)) = Some (filters (ui (run evs w)))) as H.
  { induction evs as [|e evs IH]; intros w Hw; simpl; [exact Hw|].
    apply IH, step_lastAsked, Hw. }
  by apply H.
Qed.

Lemma step_loaded w k asked results :
  inflight w !! k = Some (PLoad asked) ->
  step (Loaded k (Replied results)) w =
  {| ui := setLoading false (setStocks results (ui w));
     inflight := delete k (inflight w);
     trace := trace w ++ [] |}.
Proof. intros Hk. simpl. by rewrite Hk. Qed.

(** X16. Replies are taken as they come: when the filters are changed
    twice and the reply to the second request is handled before the reply
    to the first, the list shown in the end is the answer to the first
    request, under the filters of the second; and from the first reply on
    the page no longer reads as searching although a request is still in
    flight. *)
Theorem late_reply_overwrites_newer_results w f1 f2 r1 r2 :
  let k := length (inflight w) in
  let w2 := run [FiltersChanged f1; FiltersChanged f2] w in
  let w3 := step (Loaded (S k) (Replied r2)) w2 in
  let w4 := step (Loaded k (Replied r1)) w3 in
  inflight w2 = inflight w ++ [PLoad f1; PLoad f2] /\
  stocks (ui w3) = r2 /\ loading (ui w3) = false /\
  heading (ui w3) = toString (N.of_nat (length r2)) +:+ " Results Found" /\
  inflight w3 = inflight w ++ [PLoad f1] /\
  stocks (ui w4) = r1 /\ filters (ui w4) = f2 /\ inflight w4 = inflight w.
Proof.
  cbv zeta. cbn [run].
  set (w2 := step (FiltersChanged f2) (step (FiltersChanged f1) w)).
  assert (inflight w2 = (inflight w ++ [PLoad f1]) ++ [PLoad f2]) as Hin by done.
  assert (filters (ui w2) = f2) as Hf by done.
  clearbody w2.
  assert (inflight w2 !! S (length (inflight w)) = Some (PLoad f2)) as Hk2.
  { rewrite Hin. apply list_lookup_middle. rewrite length_app. simpl. lia. }
  rewrite (step_loaded w2 _ f2 r2 Hk2).
  set (w3 := Build_World _ _ _).
  assert (inflight w3 = inflight w ++ [PLoad f1]) as Hin3.
  { subst w3. cbn [inflight]. rewrite Hin.
    replace (S (length (inflight w))) with (length (inflight w ++ [PLoad f1]))
      by (rewrite length_app; simpl; lia).
    by rewrite (delete_middle _ []), app_nil_r. }
  assert (filters (ui w3) = f2 /\ stocks (ui w3) = r2 /\ loading (ui w3) = false)
    as (Hf3 & Hs3 & Hl3) by done.
  assert (heading (ui w3) = toString (N.of_nat (length r2)) +:+ " Results Found") as Hh3
    by (unfold heading; by rewrite Hl3, Hs3).
  clearbody w3.
  assert (inflight w3 !! length (inflight w) = Some (PLoad f1)) as Hk1.
  { rewrite Hin3. by apply list_lookup_middle. }
  rewrite (step_loaded w3 _ f1 r1 Hk1). cbn [ui inflight stocks filters setLoading setStocks].
  split; [by rewrite Hin, <- app_assoc|]. repeat split; try done.
  by rewrite Hin3, (delete_middle _ []), app_nil_r.
Qed.

End Page.

End ScreenerFacts.
